(** * Auction-Architect: roster selection

    A shallow embedding of the two selectors of the repository,

    - [Auction.select_squad]        (Backend Auction/src/squad.py),
    - [StartingXI.select_starting_xi] (Backend Starting XI/app/selector.py),

    and of the price ensemble of [AuctionPriceModel.predict_prices]
    (Backend Auction/src/model.py), together with the properties the
    specification states about them.

    The code around them is embedded as well, with properties of its own:

    - [Impact]: [minmax_normalize], [_compute_impact_efficiency], the
      SOLD/UNSOLD flag and [_select_training_years] (model.py);
    - [Features]: [overs_to_balls_series] (features.py);
    - [Scoring]: [compute_player_score], [_apply_squad_filter],
      [compute_scores_for_team] (Backend Starting XI/app/scoring.py) and
      [select_starting_xi] from its first line;
    - [Api]: [get_player_2025], [get_players_2025_table] and
      [get_squad_2025] (Backend Auction/main.py).

    Conventions.
    - A pandas DataFrame is the list of its rows, in row order; a row is a
      record of the columns the code reads.
    - A Python float is a rational or NaN ([float := option Q]); arithmetic
      on finite values is exact, NaN propagates through [+] and makes every
      comparison false, as in IEEE 754.  Rounding is not modelled.
    - A Python int is a [Z].
    - [str.strip], [str.upper] and [str.lower] act on the ASCII white
      space and letters.
    - Files, fitted models and the venue lookup are parameters of the
      sections that use them.
    - A boolean column is the list of its truth values; the dtype of a
      column (bool, or object after [pd.concat] with a one-row frame) is
      not modelled.
    - [DataFrame.sort_values] is a library routine; the code calls it with
      its default [kind], so the development is parametric in any sort that
      orders the rows by the key and permutes them ([SortValues]).  A stable
      insertion sort is supplied as an instance for running the code. *)

From Stdlib Require Import List Bool ZArith QArith Qminmax String Ascii Lia Lqa.
From Stdlib Require Import Permutation Sorted Qround.
Import ListNotations.

Local Open Scope Z_scope.

(** ** Floats *)

Definition float := option Q.

Definition NaN : float := None.

Definition notna (x : float) : bool :=
  match x with Some _ => true | None => false end.

(** [x + y] *)
Definition fadd (x y : float) : float :=
  match x, y with
  | Some a, Some b => Some (a + b)%Q
  | _, _ => None
  end.

(** [x <= y] *)
Definition fle (x y : float) : bool :=
  match x, y with
  | Some a, Some b => Qle_bool a b
  | _, _ => false
  end.

(** [Series.fillna(v)] on one cell. *)
Definition fillna (v : Q) (x : float) : Q :=
  match x with Some a => a | None => v end.

(** ** Exceptions *)

Inductive exn : Type :=
| KeyError (column : string).

Inductive result (A : Type) : Type :=
| Ok (a : A)
| Raise (e : exn).

Arguments Ok {A} a.
Arguments Raise {A} e.

(** ** [DataFrame.sort_values(column, ascending=...)] *)

(** [key_leb asc a b]: a row with key [a] may stand before a row with key
    [b].  NaN keys go last in both directions ([na_position="last"]). *)
Definition key_leb (asc : bool) (a b : float) : bool :=
  match a, b with
  | _, None => true
  | None, Some _ => false
  | Some x, Some y => if asc then Qle_bool x y else Qle_bool y x
  end.

Definition key_ord {A : Type} (key : A -> float) (asc : bool) (x y : A) : Prop :=
  key_leb asc (key x) (key y) = true.

Class SortValues : Type := {
  sort_values : forall {A : Type}, (A -> float) -> bool -> list A -> list A;
  sort_values_perm :
    forall (A : Type) (key : A -> float) (asc : bool) (l : list A),
      Permutation (sort_values key asc l) l;
  sort_values_sorted :
    forall (A : Type) (key : A -> float) (asc : bool) (l : list A),
      StronglySorted (key_ord key asc) (sort_values key asc l)
}.

(** A stable sort: insertion from the right, a row going in front of the
    first row it may precede. *)
Fixpoint insert_by {A : Type} (key : A -> float) (asc : bool) (x : A)
    (l : list A) : list A :=
  match l with
  | [] => [x]
  | y :: l' =>
      if key_leb asc (key x) (key y) then x :: l
      else y :: insert_by key asc x l'
  end.

Definition stable_sort {A : Type} (key : A -> float) (asc : bool)
    (l : list A) : list A :=
  fold_right (insert_by key asc) [] l.

(** What a stable [kind] adds: rows that are tied with each other keep
    their order, *)
Definition keeps_ties (sorter : SortValues) : Prop :=
  forall (A : Type) (key : A -> float) (asc : bool) (tied : A -> bool)
         (l : list A),
    (forall x y, In x l -> In y l -> tied x = true -> tied y = true ->
                 key_ord key asc x y) ->
    filter tied (sort_values key asc l) = filter tied l.

(** and the rows of a sub-frame are sorted as they are within the frame. *)
Definition sorts_subframes_alike (sorter : SortValues) : Prop :=
  forall (A : Type) (key : A -> float) (asc : bool) (keep : A -> bool)
         (l : list A),
    sort_values key asc (filter keep l) = filter keep (sort_values key asc l).

(** [len(l)] *)
Definition len {A : Type} (l : list A) : Z := Z.of_nat (List.length l).

(** * Squad assembly (Backend Auction/src/squad.py) *)

Module Auction.

Local Open Scope string_scope.
Local Open Scope Z_scope.

(** The columns of the prediction frame that [select_squad] reads. *)
Record Row : Type := {
  name : string;
  year : Z;
  predicted_auction_outcome : string;
  efficiency_score : float;
  country_bucket : option string;   (* [None]: the cell is missing *)
  role : string;
  predicted_price : float
}.

Definition row_key (r : Row) : string * Z := (name r, year r).

Definition key_eqb (k1 k2 : string * Z) : bool :=
  String.eqb (fst k1) (fst k2) && Z.eqb (snd k1) (snd k2).

(** [key in selected_keys] *)
Definition key_in (k : string * Z) (keys : list (string * Z)) : bool :=
  existsb (key_eqb k) keys.

(** The default of [role_requirements]; a dict is kept in insertion order. *)
Definition default_role_requirements : list (string * Z) :=
  [("Batter", 3); ("Bowler", 3); ("Allrounder", 2)].

(** Lines 31-36. *)
Definition requirements_or_default (role_requirements : option (list (string * Z)))
    : list (string * Z) :=
  match role_requirements with
  | None => default_role_requirements
  | Some d => d
  end.

(** The local variables of [select_squad] that the three phases update. *)
Record state : Type := {
  selected_rows : list Row;
  spent : float;
  overseas_count : Z;
  selected_keys : list (string * Z)
}.

Section SelectSquad.

Context {sorter : SortValues}.

Variable total_purse : float.
Variable squad_size : Z.
Variable max_overseas : Z.
Variable min_overseas : Z.

Definition can_afford (spent0 : float) (price : float) : bool :=
  fle (fadd spent0 price) total_purse.

(** Lines 39-46: the eligible rows, by descending efficiency. *)
Definition eligible (yr : Z) (r : Row) : bool :=
  Z.eqb (year r) yr
  && String.eqb (predicted_auction_outcome r) "SOLD"
  && notna (efficiency_score r).

Definition candidates_of (df : list Row) (yr : Z) : list Row :=
  sort_values efficiency_score false (filter (eligible yr) df).

(** [cell == s]; a missing cell is equal to no string. *)
Definition cell_eqb (cell : option string) (s : string) : bool :=
  match cell with
  | Some v => String.eqb v s
  | None => false
  end.

Definition is_overseas (r : Row) : bool := cell_eqb (country_bucket r) "Overseas".
Definition is_indian (r : Row) : bool := cell_eqb (country_bucket r) "Indian".

(** Lines 71-73. *)
Definition add_overseas (row : Row) (st : state) : state :=
  {| selected_rows := selected_rows st ++ [row];
     spent := fadd (spent st) (predicted_price row);
     overseas_count := overseas_count st + 1;
     selected_keys := selected_keys st |}.

(** Lines 61-73: the loop of phase 1 over the overseas candidates. *)
Fixpoint phase1 (rows : list Row) (st : state) : state :=
  match rows with
  | [] => st
  | row :: rest =>
      if min_overseas <=? overseas_count st then st
      else if can_afford (spent st) (predicted_price row)
              && (len (selected_rows st) <? squad_size)
              && (overseas_count st <? max_overseas)
           then phase1 rest (add_overseas row st)
           else phase1 rest st
  end.

(** Line 76. *)
Definition track_keys (st : state) : state :=
  {| selected_rows := selected_rows st;
     spent := spent st;
     overseas_count := overseas_count st;
     selected_keys := map row_key (selected_rows st) |}.

(** The guard of lines 89-93 and 110-114. *)
Definition may_add (row : Row) (st : state) : bool :=
  negb (key_in (row_key row) (selected_keys st))
  && can_afford (spent st) (predicted_price row)
  && (len (selected_rows st) <? squad_size).

(** Lines 94-96 and 115-117. *)
Definition add_domestic (row : Row) (st : state) : state :=
  {| selected_rows := selected_rows st ++ [row];
     spent := fadd (spent st) (predicted_price row);
     overseas_count := overseas_count st;
     selected_keys := row_key row :: selected_keys st |}.

Definition full (st : state) : bool := squad_size <=? len (selected_rows st).

(** Lines 85-99: the inner loop of phase 2; it leaves only after an
    addition that fills the squad. *)
Fixpoint fill_role (rows : list Row) (st : state) : state :=
  match rows with
  | [] => st
  | row :: rest =>
      if may_add row st then
        let st' := add_domestic row st in
        if full st' then st' else fill_role rest st'
      else fill_role rest st
  end.

(** Lines 79-101: the roles in the order of the dict; [needed] is not read. *)
Fixpoint phase2 (cands : list Row) (reqs : list (string * Z)) (st : state)
    : state :=
  match reqs with
  | [] => st
  | (rl, _needed) :: more =>
      let role_cands :=
        filter (fun r => is_indian r && String.eqb (role r) rl) cands in
      let st' := fill_role role_cands st in
      if full st' then st' else phase2 cands more st'
  end.

(** Lines 106-120: the filler loop tests the size after every row. *)
Fixpoint phase3 (rows : list Row) (st : state) : state :=
  match rows with
  | [] => st
  | row :: rest =>
      let st' := if may_add row st then add_domestic row st else st in
      if full st' then st' else phase3 rest st'
  end.

Definition init : state :=
  {| selected_rows := []; spent := Some 0%Q; overseas_count := 0;
     selected_keys := [] |}.

(** Lines 48-120 on the sorted candidates. *)
Definition run_phases (cands : list Row) (reqs : list (string * Z)) : state :=
  let st1 := phase1 (filter is_overseas cands) init in
  let st2 := phase2 cands reqs (track_keys st1) in
  phase3 (filter is_indian cands) st2.

(** Lines 122-126: [pd.DataFrame(selected_rows)] of an empty list has no
    columns, and sorting it by a column raises [KeyError]. *)
Definition to_squad_df (rows : list Row) : result (list Row) :=
  match rows with
  | [] => Raise (KeyError "efficiency_score")
  | _ :: _ => Ok (sort_values efficiency_score false rows)
  end.

End SelectSquad.

(** [select_squad(df, year, total_purse, squad_size, max_overseas,
    min_overseas, role_requirements)]; [None] is the default of
    [role_requirements]. *)
Definition select_squad {sorter : SortValues} (df : list Row) (year : Z)
    (total_purse : float) (squad_size max_overseas min_overseas : Z)
    (role_requirements : option (list (string * Z))) : result (list Row) :=
  let reqs := requirements_or_default role_requirements in
  to_squad_df
    (selected_rows
       (run_phases total_purse squad_size max_overseas min_overseas
          (candidates_of df year) reqs)).

(** [squad_df["predicted_price"].sum()] (main.py, line 273). *)
Fixpoint sum_price (rows : list Row) : Q :=
  match rows with
  | [] => 0%Q
  | r :: rest => (fillna 0 (predicted_price r) + sum_price rest)%Q
  end.

(** [(squad_df["country_bucket"] == "Overseas").sum()] *)
Definition count_overseas (rows : list Row) : Z :=
  len (filter is_overseas rows).

(** The invariants of the three phases: the spending so far is the sum of
    the prices selected and within the purse; the keys selected are
    distinct and tracked. *)
Definition within_budget (total_purse : float) (st : state) : Prop :=
  exists s : Q,
    spent st = Some s /\ (sum_price (selected_rows st) == s)%Q
    /\ fle (Some s) total_purse = true.

Definition keys_tracked (st : state) : Prop :=
  NoDup (map row_key (selected_rows st))
  /\ forall r, In r (selected_rows st) -> In (row_key r) (selected_keys st).

(** A row of efficiency score [e]. *)
Definition scored (e : Q) (r : Row) : bool :=
  match efficiency_score r with
  | Some q => Qeq_bool q e
  | None => false
  end.

(** A row with both numeric cells present. *)
Definition has_numeric (r : Row) : bool :=
  notna (efficiency_score r) && notna (predicted_price r).

End Auction.

(** * Line-up assembly (Backend Starting XI/app/selector.py) *)

Module StartingXI.

Local Open Scope string_scope.
Local Open Scope Z_scope.

Definition MIN_SPECIAL_BOWLERS : Z := 4.
Definition MAX_SPECIAL_BOWLERS : Z := 6.
Definition MIN_ALLROUNDERS_IF_4 : Z := 2.

(** The columns of [df_team], the frame [compute_scores_for_team] returns,
    that the selector reads. *)
Record PlayerRow : Type := {
  Player : string;
  Paying_Role : string;
  final_score : float;
  is_overseas : bool;
  is_keeper : bool
}.

(** [str.strip()], on the ASCII white space. *)
Definition is_space (c : ascii) : bool :=
  let n := nat_of_ascii c in
  ((9 <=? n) && (n <=? 13) || (28 <=? n) && (n <=? 32))%nat.

Fixpoint lstrip (s : string) : string :=
  match s with
  | EmptyString => EmptyString
  | String c s' => if is_space c then lstrip s' else s
  end.

Fixpoint rstrip (s : string) : string :=
  match s with
  | EmptyString => EmptyString
  | String c s' =>
      match rstrip s' with
      | EmptyString => if is_space c then EmptyString else String c EmptyString
      | t => String c t
      end
  end.

Definition strip (s : string) : string := rstrip (lstrip s).

(** Lines 83-85. *)
Definition role (p : PlayerRow) : string := strip (Paying_Role p).
Definition is_bowler_spec (p : PlayerRow) : bool := String.eqb (role p) "Bowling".
Definition is_allrounder (p : PlayerRow) : bool := String.eqb (role p) "All rounder".

(** [name in selected_names], [Series.isin] *)
Definition name_in (n : string) (names : list string) : bool :=
  existsb (String.eqb n) names.

Record counts : Type := {
  bowlers : Z;
  allrounders : Z;
  keepers : Z;
  overseas : Z
}.

Definition count (flag : PlayerRow -> bool) (df : list PlayerRow) : Z :=
  len (filter flag df).

Definition _recompute_counts (xi_df : list PlayerRow) : counts :=
  {| bowlers := count is_bowler_spec xi_df;
     allrounders := count is_allrounder xi_df;
     keepers := count is_keeper xi_df;
     overseas := count is_overseas xi_df |}.

Section SelectStartingXI.

Context {sorter : SortValues}.

Variable max_overseas : Z.

Definition by_score_desc (df : list PlayerRow) : list PlayerRow :=
  sort_values final_score false df.

Definition by_score_asc (df : list PlayerRow) : list PlayerRow :=
  sort_values final_score true df.

(** Lines 94-99: the top keeper is locked first. *)
Definition lock_keeper (df_team : list PlayerRow) : list string * Z :=
  match by_score_desc (filter is_keeper df_team) with
  | [] => ([], 0)
  | k :: _ => ([Player k], if is_overseas k then 1 else 0)
  end.

(** Lines 102-112: the fill by score under the overseas limit. *)
Fixpoint fill_by_score (rows : list PlayerRow) (selected_names : list string)
    (overseas_count : Z) : list string * Z :=
  match rows with
  | [] => (selected_names, overseas_count)
  | row :: rest =>
      if 11 <=? len selected_names then (selected_names, overseas_count)
      else if name_in (Player row) selected_names
           then fill_by_score rest selected_names overseas_count
      else if is_overseas row && (max_overseas <=? overseas_count)
           then fill_by_score rest selected_names overseas_count
      else fill_by_score rest (selected_names ++ [Player row])
             (if is_overseas row then overseas_count + 1 else overseas_count)
  end.

(** Lines 90-116: the initial XI and the bench. *)
Definition seed (df_team : list PlayerRow) : list PlayerRow * list PlayerRow :=
  let '(names0, oc0) := lock_keeper df_team in
  let '(selected_names, _) := fill_by_score (by_score_desc df_team) names0 oc0 in
  (by_score_desc (filter (fun p => name_in (Player p) selected_names) df_team),
   filter (fun p => negb (name_in (Player p) selected_names)) df_team).

(** The swap of lines 177-186 (and 239-247, 311-319, 358-366). *)
Definition swap_xi (xi_df : list PlayerRow) (out_row in_row : PlayerRow)
    : list PlayerRow :=
  by_score_desc
    (filter (fun p => negb (String.eqb (Player p) (Player out_row))) xi_df
     ++ [in_row]).

Definition swap_remaining (remaining : list PlayerRow)
    (out_row in_row : PlayerRow) : list PlayerRow :=
  filter (fun p => negb (String.eqb (Player p) (Player in_row))) remaining
  ++ [out_row].

(** [overseas_after <= max_overseas] *)
Definition keeps_cap (overseas_count : Z) (out_row in_row : PlayerRow) : bool :=
  overseas_count - Z.b2z (is_overseas out_row) + Z.b2z (is_overseas in_row)
  <=? max_overseas.

(** Lines 144-194: case A, [needed] rounds. *)
Fixpoint add_bowlers (needed : nat) (xi_df remaining : list PlayerRow)
    (changed : bool) : list PlayerRow * list PlayerRow * bool :=
  match needed with
  | O => (xi_df, remaining, changed)
  | S n =>
      let c := _recompute_counts xi_df in
      if MIN_SPECIAL_BOWLERS <=? bowlers c then (xi_df, remaining, changed)
      else
        match by_score_desc (filter is_bowler_spec remaining) with
        | [] => (xi_df, remaining, changed)
        | in_row :: _ =>
            let candidates_out :=
              by_score_asc
                (filter (fun p => negb (is_bowler_spec p) && negb (is_keeper p))
                   xi_df) in
            match find (fun out_row => keeps_cap (overseas c) out_row in_row)
                    candidates_out with
            | Some out_row =>
                add_bowlers n (swap_xi xi_df out_row in_row)
                  (swap_remaining remaining out_row in_row) true
            | None => (xi_df, remaining, changed)
            end
        end
  end.

(** Lines 207-254: case B, [excess] rounds. *)
Fixpoint drop_bowlers (excess : nat) (xi_df remaining : list PlayerRow)
    (changed : bool) : list PlayerRow * list PlayerRow * bool :=
  match excess with
  | O => (xi_df, remaining, changed)
  | S n =>
      let c := _recompute_counts xi_df in
      if bowlers c <=? MAX_SPECIAL_BOWLERS then (xi_df, remaining, changed)
      else
        match by_score_asc
                (filter (fun p => is_bowler_spec p && negb (is_keeper p)) xi_df)
        with
        | [] => (xi_df, remaining, changed)
        | out_row :: _ =>
            let non_bowlers_remaining :=
              by_score_desc
                (filter (fun p => negb (is_bowler_spec p)) remaining) in
            match find (fun in_row => keeps_cap (overseas c) out_row in_row)
                    non_bowlers_remaining with
            | Some in_row =>
                drop_bowlers n (swap_xi xi_df out_row in_row)
                  (swap_remaining remaining out_row in_row) true
            | None => (xi_df, remaining, changed)
            end
        end
  end.

(** Lines 124-262: at most [max_iters] passes. *)
Fixpoint enforce_bowlers (max_iters : nat) (xi_df remaining : list PlayerRow)
    : list PlayerRow * list PlayerRow :=
  match max_iters with
  | O => (xi_df, remaining)
  | S n =>
      let c := _recompute_counts xi_df in
      if bowlers c <? MIN_SPECIAL_BOWLERS then
        match by_score_desc (filter is_bowler_spec remaining) with
        | [] => (xi_df, remaining)
        | _ :: _ =>
            let '(xi', remaining', changed) :=
              add_bowlers (Z.to_nat (MIN_SPECIAL_BOWLERS - bowlers c))
                xi_df remaining false in
            if changed then enforce_bowlers n xi' remaining'
            else (xi', remaining')
        end
      else if MAX_SPECIAL_BOWLERS <? bowlers c then
        match by_score_asc
                (filter (fun p => is_bowler_spec p && negb (is_keeper p)) xi_df)
        with
        | [] => (xi_df, remaining)
        | _ :: _ =>
            let '(xi', remaining', changed) :=
              drop_bowlers (Z.to_nat (bowlers c - MAX_SPECIAL_BOWLERS))
                xi_df remaining false in
            if changed then enforce_bowlers n xi' remaining'
            else (xi', remaining')
        end
      else (xi_df, remaining)
  end.

(** Lines 273-325. *)
Fixpoint add_allrounders (needed_ar : nat) (xi_df remaining : list PlayerRow)
    : list PlayerRow * list PlayerRow :=
  match needed_ar with
  | O => (xi_df, remaining)
  | S n =>
      let c := _recompute_counts xi_df in
      if MIN_ALLROUNDERS_IF_4 <=? allrounders c then (xi_df, remaining)
      else
        match by_score_desc (filter is_allrounder remaining) with
        | [] => (xi_df, remaining)
        | in_row :: _ =>
            let candidates_out :=
              by_score_asc
                (filter (fun p => negb (is_allrounder p)
                                  && negb (is_bowler_spec p)
                                  && negb (is_keeper p)) xi_df) in
            match find (fun out_row => keeps_cap (overseas c) out_row in_row)
                    candidates_out with
            | Some out_row =>
                add_allrounders n (swap_xi xi_df out_row in_row)
                  (swap_remaining remaining out_row in_row)
            | None => (xi_df, remaining)
            end
        end
  end.

(** Lines 265-325. *)
Definition enforce_allrounders (xi_df remaining : list PlayerRow)
    : list PlayerRow * list PlayerRow :=
  let c := _recompute_counts xi_df in
  if (bowlers c =? MIN_SPECIAL_BOWLERS)
     && (allrounders c <? MIN_ALLROUNDERS_IF_4)
  then add_allrounders (Z.to_nat (MIN_ALLROUNDERS_IF_4 - allrounders c))
         xi_df remaining
  else (xi_df, remaining).

(** Lines 328-367. *)
Definition ensure_keeper (df_team xi_df remaining : list PlayerRow)
    : list PlayerRow * list PlayerRow :=
  let c := _recompute_counts xi_df in
  if keepers c =? 0 then
    match by_score_desc (filter is_keeper df_team) with
    | [] => (xi_df, remaining)
    | best_keeper :: _ =>
        if name_in (Player best_keeper) (map Player xi_df)
        then (xi_df, remaining)
        else
          let candidates_out :=
            by_score_asc (filter (fun p => negb (is_keeper p)) xi_df) in
          match find (fun out_row => keeps_cap (overseas c) out_row best_keeper)
                  candidates_out with
          | Some out_row =>
              (swap_xi xi_df out_row best_keeper,
               swap_remaining remaining out_row best_keeper)
          | None => (xi_df, remaining)
          end
    end
  else (xi_df, remaining).

(** Lines 373-391. *)
Definition impact_player (pitch_type : string) (df_team xi_df : list PlayerRow)
    : option PlayerRow :=
  let remaining :=
    filter (fun p => negb (name_in (Player p) (map Player xi_df))) df_team in
  match remaining with
  | [] => None
  | _ :: _ =>
      let wanted :=
        if String.eqb pitch_type "bowling" then ["Bowling"; "All rounder"]
        else ["Batting"; "All rounder"] in
      match by_score_desc (filter (fun p => name_in (role p) wanted) remaining)
      with
      | [] => hd_error (by_score_desc remaining)
      | p :: _ => Some p
      end
  end.

(** Steps 5 to 8 on the seeded XI. *)
Definition repair (df_team xi_df remaining : list PlayerRow) : list PlayerRow :=
  let '(xi1, remaining1) := enforce_bowlers 20 xi_df remaining in
  let '(xi2, remaining2) := enforce_allrounders xi1 remaining1 in
  let '(xi3, _) := ensure_keeper df_team xi2 remaining2 in
  by_score_desc xi3.

End SelectStartingXI.

(** [select_starting_xi] from line 77 on: [df_team] is the scored team frame
    that [compute_scores_for_team] returned and [pitch_type] the resolved
    pitch.  The result is [(xi_df, impact_row)]; [pitch_type] and
    [pitch_notes] are handed back unchanged and left out. *)
Definition select_starting_xi {sorter : SortValues} (df_team : list PlayerRow)
    (pitch_type : string) (max_overseas : Z)
    : list PlayerRow * option PlayerRow :=
  match df_team with
  | [] => (df_team, None)
  | _ :: _ =>
      let '(xi_df, remaining) := seed max_overseas df_team in
      match xi_df with
      | [] => (xi_df, None)
      | _ :: _ =>
          let xi := repair max_overseas df_team xi_df remaining in
          (xi, impact_player pitch_type df_team xi)
      end
  end.

(** [p] is not the player of row [x]. *)
Definition other_than (x : PlayerRow) (p : PlayerRow) : bool :=
  negb (String.eqb (Player p) (Player x)).

(** The XI and the bench split the team. *)
Definition split_team (df_team xi_df remaining : list PlayerRow) : Prop :=
  Permutation (xi_df ++ remaining) df_team.

(** The names of a list are pairwise different. *)
Fixpoint distinctb (names : list string) : bool :=
  match names with
  | [] => true
  | n :: rest => negb (name_in n rest) && distinctb rest
  end.

End StartingXI.

(** * Price ensemble (Backend Auction/src/model.py) *)

Module PriceModel.

Section PredictPrices.

(** The feature row, the two fitted pipelines (predictions in log space)
    and [np.expm1] are taken as given. *)
Variable features : Type.
Variable lgbm_pipeline_predict : features -> Q.
Variable knn_pipeline_predict : features -> Q.
Variable expm1 : Q -> Q.

Record MasterRow : Type := {
  X : features;
  base_price : float
}.

Record Predicted : Type := {
  master : MasterRow;
  predicted_price : Q
}.

(** Lines 254-266 on one row. *)
Definition price_ensemble (r : MasterRow) : Q :=
  let price_lgbm := expm1 (lgbm_pipeline_predict (X r)) in
  let price_knn := expm1 (knn_pipeline_predict (X r)) in
  Qmax ((1 # 2) * price_lgbm + (1 # 2) * price_knn)%Q (fillna 0 (base_price r)).

(** Line 268. *)
Definition predict_prices (master_df : list MasterRow) : list Predicted :=
  map (fun r => {| master := r; predicted_price := price_ensemble r |}) master_df.

End PredictPrices.

Arguments X {features} _.
Arguments base_price {features} _.
Arguments master {features} _.
Arguments predicted_price {features} _.
Arguments price_ensemble {features} _ _ _ _.
Arguments predict_prices {features} _ _ _ _.

End PriceModel.


(** * Auxiliary predicates on squads *)

Module AuctionSpec.
Import Auction.

(** Prices that are present are not negative. *)
Definition priced (rows : list Row) : Prop :=
  forall r p, In r rows -> predicted_price r = Some p -> (0 <= p)%Q.

(** The books of the three phases: what is spent is the sum of the prices
    selected, and every tracked key is the key of a selected row. *)
Definition books (st : state) : Prop :=
  (exists s, spent st = Some s /\ (sum_price (selected_rows st) == s)%Q)
  /\ incl (selected_keys st) (map row_key (selected_rows st)).

End AuctionSpec.

(** * Impact and efficiency scores (Backend Auction/src/model.py) *)

Module Impact.
Local Open Scope string_scope.
Local Open Scope Z_scope.

(** [s[s.notna()]] as the list of its values. *)
Definition dropna {A : Type} (s : list (option A)) : list A :=
  flat_map (fun v => match v with Some a => [a] | None => [] end) s.

(** Lines 39-40 on one cell: [(s - min_val) / (max_val - min_val)], NaN
    where the value is missing. *)
Definition scale (min_val max_val : Q) (v : float) : float :=
  match v with
  | Some q => Some ((q - min_val) / (max_val - min_val))%Q
  | None => NaN
  end.

(** Lines 27-41.  [min_val] and [max_val] are taken over the values that
    are present; the two early returns fill every position, the missing
    ones too. *)
Definition minmax_normalize (series : list float) : list float :=
  match dropna series with
  | [] => map (fun _ => Some 0%Q) series
  | x :: xs =>
      let min_val := fold_right Qmin x xs in
      let max_val := fold_right Qmax x xs in
      if Qeq_bool min_val max_val then map (fun _ => Some (1 # 2)%Q) series
      else map (scale min_val max_val) series
  end.

(** [np.nanmean] of one row of a stack: the mean of the values present,
    NaN when there is none. *)
Definition nanmean (row : list float) : float :=
  match dropna row with
  | [] => NaN
  | v :: vs =>
      Some (fold_right Qplus 0%Q (v :: vs)
            / inject_Z (Z.of_nat (List.length (v :: vs))))%Q
  end.

(** [np.vstack([a, b, c]).T], row by row. *)
Definition vstack3_T (a b c : list float) : list (list float) :=
  map (fun '(x, (y, z)) => [x; y; z]) (combine a (combine b c)).

(** [1.0 - x] *)
Definition one_minus (x : float) : float :=
  match x with Some q => Some (1 - q)%Q | None => NaN end.

(** [x / 1e7] *)
Definition crore (x : float) : float :=
  match x with Some q => Some (q / 10000000)%Q | None => NaN end.

(** [Series.replace(0, np.nan)] on one cell. *)
Definition replace_zero_nan (x : float) : float :=
  match x with
  | Some q => if Qeq_bool q 0 then NaN else Some q
  | None => NaN
  end.

(** [x / y] where the zeros of [y] have been replaced by NaN. *)
Definition fdiv_nz (x y : float) : float :=
  match x, replace_zero_nan y with
  | Some a, Some b => Some (a / b)%Q
  | _, _ => NaN
  end.

(** The columns [_compute_impact_efficiency] reads. *)
Record StatsRow : Type := {
  runs_per_match : float;
  batting_average : float;
  batting_strike_rate : float;
  wickets_per_match : float;
  overs_per_match : float;
  bowling_economy : float;
  predicted_price : float
}.

(** The columns it adds. *)
Record ScoredRow : Type := {
  stats : StatsRow;
  batting_impact : float;
  bowling_impact : float;
  impact_score : float;
  predicted_price_crore : float;
  efficiency_score : float
}.

(** Lines 296-300. *)
Definition batting_impacts (df : list StatsRow) : list float :=
  let bat_runs := minmax_normalize (map runs_per_match df) in
  let bat_avg := minmax_normalize (map batting_average df) in
  let bat_sr := minmax_normalize (map batting_strike_rate df) in
  map nanmean (vstack3_T bat_runs bat_avg bat_sr).

(** Lines 303-308. *)
Definition bowling_impacts (df : list StatsRow) : list float :=
  let bowl_wpm := minmax_normalize (map wickets_per_match df) in
  let bowl_ovpm := minmax_normalize (map overs_per_match df) in
  let bowl_econ := minmax_normalize (map bowling_economy df) in
  let bowl_econ_inv := map one_minus bowl_econ in
  map nanmean (vstack3_T bowl_wpm bowl_ovpm bowl_econ_inv).

(** Lines 311-319 on one row. *)
Definition score_row (r : StatsRow) (bat bowl : float) : ScoredRow :=
  let impact := fadd bat bowl in
  let price_crore := crore (predicted_price r) in
  {| stats := r; batting_impact := bat; bowling_impact := bowl;
     impact_score := impact; predicted_price_crore := price_crore;
     efficiency_score := fdiv_nz impact price_crore |}.

(** Lines 289-321. *)
Definition _compute_impact_efficiency (df : list StatsRow) : list ScoredRow :=
  map (fun '(r, (bat, bowl)) => score_row r bat bowl)
      (combine df (combine (batting_impacts df) (bowling_impacts df))).

(** [x < t] on floats. *)
Definition flt (x t : float) : bool :=
  match x, t with
  | Some a, Some b => negb (Qle_bool b a)
  | _, _ => false
  end.

(** Lines 274-279; [efficiency_threshold_] is [None] before [fit] or
    [load], and the percentile it holds afterwards may be NaN. *)
Definition predicted_unsold_flag (efficiency_threshold_ : option float)
    (efficiency : float) : bool :=
  match efficiency_threshold_ with
  | Some t => flt (Some (fillna 0 efficiency)) t
  | None => false
  end.

(** Lines 281-285. *)
Definition predicted_auction_outcome (efficiency_threshold_ : option float)
    (efficiency : float) : string :=
  if predicted_unsold_flag efficiency_threshold_ efficiency
  then "UNSOLD" else "SOLD".

(** Lines 271-287: the scored frame with its outcome column. *)
Definition classify (efficiency_threshold_ : option float)
    (df : list StatsRow) : list (ScoredRow * string) :=
  map (fun r => (r, predicted_auction_outcome efficiency_threshold_
                      (efficiency_score r)))
      (_compute_impact_efficiency df).

(** A value that is present lies between [lo] and [hi]. *)
Definition within (lo hi : Q) (v : float) : Prop :=
  match v with Some q => (lo <= q <= hi)%Q | None => True end.

(** ** Training years *)

(** [raise ValueError(message)] *)
Inductive raises (A : Type) : Type :=
| Returns (a : A)
| ValueError (message : string).

Arguments Returns {A} a.
Arguments ValueError {A} message.

(** [sorted(col.dropna().unique())]: the distinct values, ascending. *)
Fixpoint insert_year (y : Z) (years : list Z) : list Z :=
  match years with
  | [] => [y]
  | x :: rest =>
      if y <? x then y :: years
      else if y =? x then years
      else x :: insert_year y rest
  end.

Definition sorted_unique (col : list (option Z)) : list Z :=
  fold_right insert_year [] (dropna col).

(** [l[-2:]] *)
Definition last_two {A : Type} (l : list A) : list A :=
  skipn (List.length l - 2) l.

(** Lines 154-184. *)
Definition _select_training_years (year_col : list (option Z))
    : raises (list Z) :=
  let years := sorted_unique year_col in
  match rev years with
  | [] => ValueError "No valid 'year' values found in master_df."
  | latest_year :: _ =>
      let past_years := filter (fun y => y <? latest_year) years in
      match past_years with
      | [] =>
          ValueError
            ("No past years available for training. "
             ++ "You need at least one completed auction year before the current one.")
      | [_] => Returns past_years
      | _ => Returns (last_two past_years)
      end
  end.

End Impact.

(** * Overs as balls (Backend Auction/src/features.py) *)

Module Features.
Local Open Scope Z_scope.

(** [np.rint]: to the nearest integer, halves to the even one. *)
Definition rint (q : Q) : Z :=
  let f := Qfloor q in
  match (q - inject_Z f ?= 1 # 2)%Q with
  | Lt => f
  | Gt => f + 1
  | Eq => if Z.even f then f else f + 1
  end.

(** Lines 6-10 on one cell. *)
Definition overs_to_balls (s : float) : Z :=
  let s := fillna 0 s in
  let overs := Qfloor s in
  let balls := rint ((s - inject_Z overs) * 10)%Q in
  overs * 6 + balls.

Definition overs_to_balls_series (s : list float) : list Z :=
  map overs_to_balls s.

End Features.

(** * The impact player's roles (Backend Starting XI/app/selector.py) *)

Module ImpactRoles.
Local Open Scope string_scope.

(** Lines 377-384: the roles preferred on the bench. *)
Definition preferred_roles (pitch_type : string) : list string :=
  if String.eqb pitch_type "bowling" then ["Bowling"; "All rounder"]
  else ["Batting"; "All rounder"].

(** Line 373: the bench left by an XI. *)
Definition bench (df_team xi_df : list StartingXI.PlayerRow)
    : list StartingXI.PlayerRow :=
  filter (fun p => negb (StartingXI.name_in (StartingXI.Player p)
                           (map StartingXI.Player xi_df))) df_team.

End ImpactRoles.

(** * Player scores (Backend Starting XI/app/scoring.py, config.py) *)

Module Scoring.
Local Open Scope string_scope.
Local Open Scope Z_scope.

(** [str.upper()] and [str.lower()], on the ASCII letters. *)
Definition upper_ascii (c : ascii) : ascii :=
  let n := nat_of_ascii c in
  if ((97 <=? n) && (n <=? 122))%nat then ascii_of_nat (n - 32) else c.

Definition lower_ascii (c : ascii) : ascii :=
  let n := nat_of_ascii c in
  if ((65 <=? n) && (n <=? 90))%nat then ascii_of_nat (n + 32) else c.

Fixpoint map_string (f : ascii -> ascii) (s : string) : string :=
  match s with
  | EmptyString => EmptyString
  | String c s' => String (f c) (map_string f s')
  end.

Definition upper : string -> string := map_string upper_ascii.
Definition lower : string -> string := map_string lower_ascii.

(** config.py, lines 29-47. *)
Definition TEAM_CODES : list string :=
  ["CSK"; "DC"; "GT"; "KKR"; "LSG"; "MI"; "PK"; "RCB"; "RR"; "SRH"].

Definition WICKET_KEEPERS : list string :=
  ["MS Dhoni"; "Rishabh Pant"; "Wriddhiman Saha"; "Matthew Wade";
   "K L Rahul"; "Quinton De Kock"; "Ishan Kishan"; "Jonny Bairstow";
   "Jitesh Sharma"; "Dinesh Karthik"; "Jos Buttler"; "Sanju Samson";
   "Nicholas Pooran"; "Devon Conway"].

(** The columns of the stats frame that the scoring reads, the numeric
    ones as [_clean_players_df] leaves them: a number or NaN. *)
Record StatsRow : Type := {
  Player : string;
  COUNTRY : string;
  TEAM : string;
  Paying_Role : string;
  Avg : float;
  SR : float;
  Runs : float;
  Inns : float;
  B_Wkts : float;
  B_Inns : float;
  B_Econ : float;
  CAPTAINCY_EXP : float
}.

(** Lines 95-108. *)
Definition _safe_numeric (val : float) : Q := fillna 0 val.

(** [x > 0] *)
Definition positive (x : Q) : bool := negb (Qle_bool x 0).

(** Lines 117-124. *)
Definition batting_score_raw (row : StatsRow) : Q :=
  let avg := _safe_numeric (Avg row) in
  let sr := _safe_numeric (SR row) in
  let runs := _safe_numeric (Runs row) in
  let inns := _safe_numeric (Inns row) in
  let runs_per_inns := if positive inns then (runs / inns)%Q else 0%Q in
  ((1 # 2) * avg + (1 # 5) * sr + (3 # 10) * runs_per_inns)%Q.

(** Lines 127-140; a missing economy counts as 999. *)
Definition bowling_score_raw (row : StatsRow) : Q :=
  let b_wkts := _safe_numeric (B_Wkts row) in
  let b_inns := _safe_numeric (B_Inns row) in
  let b_econ := fillna 999 (B_Econ row) in
  let wkts_per_inns := if positive b_inns then (b_wkts / b_inns)%Q else 0%Q in
  (wkts_per_inns * 25 + Qmax 0 (8 - b_econ) * 5)%Q.

(** Lines 143-154. *)
Definition role_weighted (row : StatsRow) : Q :=
  let role := StartingXI.strip (Paying_Role row) in
  let '(bat_weight, bowl_weight) :=
    if String.eqb role "Batting" then ((6 # 5)%Q, (3 # 5)%Q)
    else if String.eqb role "Bowling" then ((3 # 5)%Q, (6 # 5)%Q)
    else (1%Q, 1%Q) in
  (bat_weight * batting_score_raw row + bowl_weight * bowling_score_raw row)%Q.

(** Lines 157-170. *)
Definition pitch_factor (role pitch_type : string) : Q :=
  if String.eqb pitch_type "batting" then
    if String.eqb role "Batting" then (6 # 5)%Q
    else if String.eqb role "Bowling" then (9 # 10)%Q
    else (21 # 20)%Q
  else if String.eqb pitch_type "bowling" then
    if String.eqb role "Bowling" then (6 # 5)%Q
    else if String.eqb role "Batting" then (9 # 10)%Q
    else (11 # 10)%Q
  else 1%Q.

(** Lines 173-177. *)
Definition toss_factor (role toss_decision : string) : Q :=
  let toss_decision := lower toss_decision in
  if String.eqb toss_decision "bat" && String.eqb role "Batting" then (21 # 20)%Q
  else if String.eqb toss_decision "bowl" && String.eqb role "Bowling"
       then (21 # 20)%Q
  else 1%Q.

(** Lines 111-192.  All inputs are finite here, so the clamp of lines
    189-190 is never taken. *)
Definition compute_player_score (row : StatsRow)
    (pitch_type toss_decision : string) : Q :=
  let role := StartingXI.strip (Paying_Role row) in
  let base_score := role_weighted row in
  let base_score := (base_score * pitch_factor role pitch_type)%Q in
  let base_score := (base_score * toss_factor role toss_decision)%Q in
  let base_score :=
    if positive (_safe_numeric (CAPTAINCY_EXP row))
    then (base_score * (51 # 50))%Q else base_score in
  let base_score :=
    if StartingXI.name_in (Player row) WICKET_KEEPERS
    then (base_score * (103 # 100))%Q else base_score in
  base_score.

(** A statistic that is present is not negative. *)
Definition not_negative (x : float) : Prop :=
  match x with Some q => (0 <= q)%Q | None => True end.

(** The squad file, when it exists and can be read: its column names and
    its rows, a row giving the text of its cell in a column
    ([astype(str)]). *)
Record SquadCsv : Type := {
  columns : list string;
  rows : list (string -> string)
}.

(** Lines 213-224: the first candidate that is a column. *)
Definition detect (cands columns : list string) : option string :=
  find (fun cand => StartingXI.name_in cand columns) cands.

(** Lines 195-271.  [squad_csv] is [None] when the file does not exist or
    cannot be read.  [unique()] is left out: the names are only tested for
    emptiness and membership. *)
Definition _apply_squad_filter (squad_csv : option SquadCsv)
    (df_team : list StatsRow) (team_code : string) : list StatsRow :=
  match squad_csv with
  | None => df_team
  | Some squad_df =>
      match detect ["TEAM"; "Team"; "team"] (columns squad_df),
            detect ["Player"; "player"; "PLAYER_NAME"; "player_name"]
              (columns squad_df)
      with
      | Some team_col, Some name_col =>
          let squad_team :=
            filter (fun r => String.eqb (upper (r team_col)) (upper team_code))
              (rows squad_df) in
          match squad_team with
          | [] => df_team
          | _ :: _ =>
              let squad_names :=
                map (fun r => StartingXI.strip (r name_col)) squad_team in
              match squad_names with
              | [] => df_team
              | _ :: _ =>
                  match
                    filter (fun p => StartingXI.name_in (Player p) squad_names)
                      df_team
                  with
                  | [] => df_team
                  | df_filtered => df_filtered
                  end
              end
          end
      | _, _ => df_team
      end
  end.

(** Lines 313-325 on one row: the score and the two flags. *)
Definition scored_row (score : Q) (row : StatsRow) : StartingXI.PlayerRow :=
  {| StartingXI.Player := Player row;
     StartingXI.Paying_Role := Paying_Role row;
     StartingXI.final_score := Some score;
     StartingXI.is_overseas := negb (String.eqb (COUNTRY row) "IND");
     StartingXI.is_keeper := StartingXI.name_in (Player row) WICKET_KEEPERS |}.

Section ComputeScores.

Context {sorter : SortValues}.

(** The squad file and, when a trained model is loaded, its prediction on
    a row ([model.predict] on the feature columns with NaN as 0.0). *)
Variable squad_csv : option SquadCsv.
Variable model_predict : option (StatsRow -> Q).

(** Lines 274-328; the frame is given by the columns the selector reads. *)
Definition compute_scores_for_team (players_df : list StatsRow)
    (team_code pitch_type toss_decision : string)
    : list StartingXI.PlayerRow :=
  let df_team := filter (fun r => String.eqb (TEAM r) team_code) players_df in
  let df_team := _apply_squad_filter squad_csv df_team team_code in
  match df_team with
  | [] => []
  | _ :: _ =>
      let final_score :=
        match model_predict with
        | Some predict => predict
        | None => fun r => compute_player_score r pitch_type toss_decision
        end in
      sort_values StartingXI.final_score false
        (map (fun r => scored_row (final_score r) r) df_team)
  end.

(** [get_pitch_info_smart] of stadiums.py: the pitch type and the notes of
    the venue found, if any. *)
Variable get_pitch_info_smart : string -> option (string * string).

(** selector.py, lines 43-393: [(xi_df, impact_row, pitch_type,
    pitch_notes)]. *)
Definition select_starting_xi (players_df : list StatsRow)
    (team_code venue_query toss_decision : string) (max_overseas : Z)
    : list StartingXI.PlayerRow * option StartingXI.PlayerRow
      * string * string :=
  let '(pitch_type, pitch_notes) :=
    match get_pitch_info_smart venue_query with
    | None => ("balanced", "Unknown venue; using 'balanced' as default.")
    | Some info => info
    end in
  let df_team :=
    compute_scores_for_team players_df team_code pitch_type toss_decision in
  let '(xi_df, impact_row) :=
    StartingXI.select_starting_xi df_team pitch_type max_overseas in
  (xi_df, impact_row, pitch_type, pitch_notes).

End ComputeScores.

End Scoring.

(** * The endpoints of the auction backend (Backend Auction/main.py) *)

Module Api.
Import Auction.
Local Open Scope string_scope.
Local Open Scope Z_scope.

(** config.py, line 18. *)
Definition PREDICTION_YEAR : Z := 2025.

(** What a handler raises: [HTTPException(status_code)], or any other
    exception; [HTTPException] is an [Exception] too. *)
Inductive raised : Type :=
| HTTPException (status_code : Z)
| OtherException.

Inductive outcome (A : Type) : Type :=
| Returns (body : A)
| Raises (e : raised).

Arguments Returns {A} body.
Arguments Raises {A} e.

(** [try: ... except Exception as e: raise HTTPException(500, str(e))] *)
Definition except_Exception {A : Type} (body : outcome A) : outcome A :=
  match body with
  | Returns a => Returns a
  | Raises _ => Raises (HTTPException 500)
  end.

(** [try: ... except HTTPException: raise
            except Exception as e: raise HTTPException(500, str(e))] *)
Definition except_HTTPException_raise {A : Type} (body : outcome A)
    : outcome A :=
  match body with
  | Returns a => Returns a
  | Raises (HTTPException status_code) => Raises (HTTPException status_code)
  | Raises OtherException => Raises (HTTPException 500)
  end.

(** A row of the predictions frame: the columns [select_squad] reads and
    the two others that the endpoints read. *)
Record PredRow : Type := {
  row : Row;
  base_price : float;
  impact_score : float
}.

(** [x - y] *)
Definition fsub (x y : float) : float :=
  match x, y with
  | Some a, Some b => Some (a - b)%Q
  | _, _ => NaN
  end.

(** Lines 186-192; a missing value is [None], which is also how [float]
    writes it. *)
Definition to_crore (x : float) : float :=
  match x with
  | Some q => Some (q / 10000000)%Q
  | None => None
  end.

(** The body of [/players/2025]. *)
Record PlayerBody : Type := {
  player_name : string;
  player_year : Z;
  player_base_price : float;
  player_outcome : string;
  player_predicted_price : float;
  player_impact_score : float;
  player_efficiency_score : float
}.

(** A record of [/players/2025/table]. *)
Record TableRecord : Type := {
  table_name : string;
  table_role : string;
  table_country_bucket : option string;
  base_price_cr : float;
  predicted_price_cr : float;
  table_impact_score : float;
  table_efficiency_score : float;
  table_outcome : string
}.

Record TableBody : Type := {
  table_year : Z;
  table_players : list TableRecord
}.

(** The body of [/squad/2025]. *)
Record SquadBody : Type := {
  squad_year : Z;
  squad_size : Z;
  total_spent : Q;
  purse_remaining : float;
  overseas_count : Z;
  min_overseas_target : Z;
  max_overseas : Z;
  players : list Row
}.

Section Endpoints.

Context {sorter : SortValues}.

(** [model_files_exist()], and what [model.load()],
    [load_and_prepare_master()] and [model.predict_prices(master_df)] come
    to: the predictions frame, or an exception on the way. *)
Variable model_files_exist : bool.
Variable preds : option (list PredRow).

(** Lines 99-110 and 173-184: the rows of the prediction year. *)
Definition year_rows (preds_df : list PredRow) : list PredRow :=
  filter (fun r => year (row r) =? PREDICTION_YEAR) preds_df.

(** Lines 121-154. *)
Definition player_body (r : PredRow) : PlayerBody :=
  let outcome := predicted_auction_outcome (row r) in
  {| player_name := name (row r);
     player_year := year (row r);
     player_base_price := base_price r;
     player_outcome := outcome;
     player_predicted_price :=
       if String.eqb outcome "SOLD" then predicted_price (row r) else None;
     player_impact_score := impact_score r;
     player_efficiency_score := efficiency_score (row r) |}.

(** Lines 91-159. *)
Definition get_player_2025 (name_query : string) : outcome PlayerBody :=
  if negb model_files_exist then Raises (HTTPException 400)
  else
    except_HTTPException_raise
      match preds with
      | None => Raises OtherException
      | Some preds_df =>
          match year_rows preds_df with
          | [] => Raises (HTTPException 404)
          | year_df =>
              match
                filter (fun r => String.eqb (Scoring.lower (name (row r)))
                                   (Scoring.lower name_query)) year_df
              with
              | [] => Raises (HTTPException 404)
              | r :: _ => Returns (player_body r)
              end
          end
      end.

(** Lines 194-233 on one row. *)
Definition table_record (r : PredRow) : TableRecord :=
  {| table_name := name (row r);
     table_role := role (row r);
     table_country_bucket := country_bucket (row r);
     base_price_cr := to_crore (base_price r);
     predicted_price_cr := to_crore (predicted_price (row r));
     table_impact_score := impact_score r;
     table_efficiency_score := efficiency_score (row r);
     table_outcome := predicted_auction_outcome (row r) |}.

(** Lines 162-242. *)
Definition get_players_2025_table : outcome TableBody :=
  if negb model_files_exist then Raises (HTTPException 400)
  else
    except_Exception
      match preds with
      | None => Raises OtherException
      | Some preds_df =>
          match year_rows preds_df with
          | [] => Raises (HTTPException 404)
          | year_df =>
              Returns {| table_year := PREDICTION_YEAR;
                         table_players := map table_record year_df |}
          end
      end.

(** Lines 245-298; the six columns of ["players"] are left as rows. *)
Definition get_squad_2025 (total_purse : float)
    (squad_size max_overseas min_overseas : Z) : outcome SquadBody :=
  if negb model_files_exist then Raises (HTTPException 400)
  else
    except_Exception
      match preds with
      | None => Raises OtherException
      | Some preds_df =>
          match
            select_squad (map row preds_df) PREDICTION_YEAR total_purse
              squad_size max_overseas min_overseas None
          with
          | Raise _ => Raises OtherException
          | Ok squad_df =>
              let total_spent := sum_price squad_df in
              Returns
                {| squad_year := PREDICTION_YEAR;
                   squad_size := len squad_df;
                   total_spent := total_spent;
                   purse_remaining := fsub total_purse (Some total_spent);
                   overseas_count := count_overseas squad_df;
                   min_overseas_target := min_overseas;
                   max_overseas := max_overseas;
                   players := squad_df |}
          end
      end.

End Endpoints.

End Api.

(** * Sample frames *)

Module AuctionSamples.
Import Auction.
Local Open Scope string_scope.
Local Open Scope Z_scope.

Definition sold (n : string) (eff : float) (bucket rl : string) (price : float)
    : Row :=
  {| name := n; year := 2025; predicted_auction_outcome := "SOLD";
     efficiency_score := eff; country_bucket := Some bucket; role := rl;
     predicted_price := price |}.

Definition batter : Row := sold "R Sharma" (Some 5%Q) "Indian" "Batter" (Some 10%Q).
Definition quick : Row := sold "P Cummins" (Some 5%Q) "Overseas" "Bowler" (Some 10%Q).
Definition unpriced : Row := sold "S Gill" (Some 7%Q) "Indian" "Batter" NaN.
Definition unscored : Row := sold "R Jadeja" NaN "Indian" "Allrounder" (Some 1%Q).
Definition associate : Row := sold "S Lamichhane" (Some 9%Q) "Associate" "Bowler" (Some 1%Q).
Definition stateless : Row :=
  {| name := "T David"; year := 2025; predicted_auction_outcome := "SOLD";
     efficiency_score := Some 9%Q; country_bucket := None; role := "Batter";
     predicted_price := Some 1%Q |}.
Definition last_year : Row :=
  {| name := "MS Dhoni"; year := 2024; predicted_auction_outcome := "SOLD";
     efficiency_score := Some 8%Q; country_bucket := Some "Indian";
     role := "Batter";
     predicted_price := Some 2%Q |}.

Definition pool : list Row :=
  [batter; quick; unpriced; unscored; associate; stateless].

End AuctionSamples.

Module StartingXISamples.
Import StartingXI.
Local Open Scope string_scope.
Local Open Scope Z_scope.

Definition player (n rl : string) (score : Z) (abroad keeper : bool) : PlayerRow :=
  {| Player := n; Paying_Role := rl; final_score := Some (inject_Z score);
     is_overseas := abroad; is_keeper := keeper |}.

(** A team whose best keeper is an overseas player. *)
Definition de_kock : PlayerRow := player "Quinton De Kock" "Batting" 50 true true.

Definition rahane : PlayerRow := player "A Rahane" "Batting" 40 false false.

Definition chahar : PlayerRow := player "D Chahar" "Bowling" 30 false false.

Definition keeper_abroad : list PlayerRow := [de_kock; rahane; chahar].

(** Four overseas bowlers fill the cap of 4; the bench holds an overseas
    allrounder and, below him, a domestic one. *)
Definition xi_core : list PlayerRow :=
  [ player "B1" "Bowling" 100 true false;
    player "B2" "Bowling" 99 true false;
    player "B3" "Bowling" 98 true false;
    player "B4" "Bowling" 97 true false;
    player "MS Dhoni" "Batting" 96 false true;
    player "A1" "All rounder" 95 false false;
    player "T1" "Batting" 94 false false;
    player "T2" "Batting" 93 false false;
    player "T3" "Batting" 92 false false;
    player "T4" "Batting" 91 false false;
    player "T5" "Batting" 90 false false ].

Definition bench_abroad : PlayerRow := player "A2" "All rounder" 89 true false.

Definition bench_home : PlayerRow := player "A3" " All rounder " 88 false false.

Definition weakest_batter : PlayerRow := player "T5" "Batting" 90 false false.

Definition team_blocked : list PlayerRow := xi_core ++ [bench_abroad; bench_home].

Definition team_open : list PlayerRow := xi_core ++ [bench_home].

End StartingXISamples.


Module SquadSamples.
Import Auction AuctionSamples.
Local Open Scope string_scope.
Local Open Scope Z_scope.

(** An overseas player priced above a purse of 20. *)
Definition marquee : Row :=
  sold "J Buttler" (Some 9%Q) "Overseas" "Batter" (Some 50%Q).

Definition tight_pool : list Row := [batter; marquee].

End SquadSamples.

Module ImpactSamples.
Import Impact.
Local Open Scope Z_scope.

(** A column with a missing value, and one without spread. *)
Definition strike_rates : list float := [Some 120%Q; NaN; Some 150%Q; Some 135%Q].

Definition flat_economy : list float := [Some 8%Q; NaN; Some 8%Q].

Definition opener : StatsRow :=
  {| runs_per_match := Some 40%Q; batting_average := Some 35%Q;
     batting_strike_rate := Some 150%Q; wickets_per_match := Some 0%Q;
     overs_per_match := Some 0%Q; bowling_economy := NaN;
     predicted_price := Some 20000000%Q |}.

Definition spinner : StatsRow :=
  {| runs_per_match := Some 5%Q; batting_average := Some 8%Q;
     batting_strike_rate := Some 90%Q; wickets_per_match := Some 2%Q;
     overs_per_match := Some 4%Q; bowling_economy := Some 7%Q;
     predicted_price := Some 100000000%Q |}.

Definition debutant : StatsRow :=
  {| runs_per_match := NaN; batting_average := NaN;
     batting_strike_rate := NaN; wickets_per_match := NaN;
     overs_per_match := NaN; bowling_economy := NaN;
     predicted_price := Some 2000000%Q |}.

Definition stats_frame : list StatsRow := [opener; spinner; debutant].

(** The example of the docstring of [_select_training_years]. *)
Definition auction_years : list (option Z) :=
  [Some 2021; Some 2025; Some 2022; None; Some 2023; Some 2022].

Definition train_years : list Z := [2022; 2023].

End ImpactSamples.

Module ScoringSamples.
Import Scoring.
Local Open Scope string_scope.
Local Open Scope Z_scope.

Definition stats (n country team rl : string) (avg sr runs inns wkts b_inns : Z)
    (econ : float) : StatsRow :=
  {| Player := n; COUNTRY := country; TEAM := team; Paying_Role := rl;
     Avg := Some (inject_Z avg); SR := Some (inject_Z sr);
     Runs := Some (inject_Z runs); Inns := Some (inject_Z inns);
     B_Wkts := Some (inject_Z wkts); B_Inns := Some (inject_Z b_inns);
     B_Econ := econ; CAPTAINCY_EXP := NaN |}.

Definition gaikwad : StatsRow :=
  stats "Ruturaj Gaikwad" "IND" "CSK" "Batting" 40 135 590 14 0 0 NaN.

Definition dhoni : StatsRow :=
  stats "MS Dhoni" "IND" "CSK" " Batting" 25 150 200 10 0 0 NaN.

Definition pathirana : StatsRow :=
  stats "Matheesha Pathirana" "SL" "CSK" "Bowling" 2 50 10 3 19 12 (Some 8%Q).

Definition bumrah : StatsRow :=
  stats "Jasprit Bumrah" "IND" "MI" "Bowling" 5 80 30 6 20 14 (Some (13 # 2)%Q).

Definition stats_df : list StatsRow := [gaikwad; bumrah; dhoni; pathirana].

(** A squad file that lists one player of CSK, with a padded name. *)
Definition squad_file : SquadCsv :=
  {| columns := ["Team"; "player_name"];
     rows := [fun col => if String.eqb col "Team" then "csk"
                         else " MS Dhoni ";
              fun col => if String.eqb col "Team" then "mi"
                         else "Jasprit Bumrah"] |}.

Definition no_venue (venue_query : string) : option (string * string) := None.

End ScoringSamples.

Module ApiSamples.
Import Auction AuctionSamples Api.
Local Open Scope string_scope.
Local Open Scope Z_scope.

Definition pred (r : Row) : PredRow :=
  {| row := r; base_price := Some 1%Q; impact_score := Some 1%Q |}.

Definition preds_2025 : list PredRow := map pred pool.

Definition preds_2024 : list PredRow := [pred last_year].

Definition squad_body : SquadBody :=
  {| squad_year := 2025;
     squad_size := 2;
     total_spent := sum_price [quick; batter];
     purse_remaining := fsub (Some 100%Q) (Some (sum_price [quick; batter]));
     overseas_count := 1;
     min_overseas_target := 1;
     max_overseas := 3;
     players := [quick; batter] |}.

End ApiSamples.
(** * The stable sort meets the contract *)

Lemma key_leb_total (asc : bool) (a b : float) :
  key_leb asc a b = false -> key_leb asc b a = true.
Proof.
  destruct a as [x|], b as [y|]; simpl; try congruence.
  destruct asc; intros H.
  - apply Qle_bool_iff. destruct (Qlt_le_dec y x) as [Hlt|Hle]; [lra|].
    apply Qle_bool_iff in Hle. congruence.
  - apply Qle_bool_iff. destruct (Qlt_le_dec x y) as [Hlt|Hle]; [lra|].
    apply Qle_bool_iff in Hle. congruence.
Qed.

Lemma key_leb_trans (asc : bool) (a b c : float) :
  key_leb asc a b = true -> key_leb asc b c = true -> key_leb asc a c = true.
Proof.
  destruct a as [x|], b as [y|], c as [z|]; simpl; try congruence.
  destruct asc; rewrite !Qle_bool_iff; lra.
Qed.

Lemma insert_by_perm {A : Type} (key : A -> float) asc (x : A) l :
  Permutation (insert_by key asc x l) (x :: l).
Proof.
  induction l as [|y l IH]; simpl; [reflexivity|].
  destruct (key_leb asc (key x) (key y)); [reflexivity|].
  rewrite IH. apply perm_swap.
Qed.

Lemma stable_sort_perm {A : Type} (key : A -> float) asc (l : list A) :
  Permutation (stable_sort key asc l) l.
Proof.
  induction l as [|x l IH]; simpl; [constructor|].
  rewrite insert_by_perm. now constructor.
Qed.

Lemma insert_by_sorted {A : Type} (key : A -> float) asc (x : A) l :
  StronglySorted (key_ord key asc) l ->
  StronglySorted (key_ord key asc) (insert_by key asc x l).
Proof.
  induction 1 as [|y l Hs IH Hall]; simpl.
  - constructor; constructor.
  - destruct (key_leb asc (key x) (key y)) eqn:E.
    + constructor; [now constructor|].
      constructor; [exact E|].
      eapply Forall_impl; [|exact Hall].
      intros z Hz. unfold key_ord in *. eapply key_leb_trans; eauto.
    + constructor; [exact IH|].
      eapply Permutation_Forall; [symmetry; apply insert_by_perm|].
      constructor; [|exact Hall].
      apply key_leb_total in E. exact E.
Qed.

Lemma stable_sort_sorted {A : Type} (key : A -> float) asc (l : list A) :
  StronglySorted (key_ord key asc) (stable_sort key asc l).
Proof.
  induction l as [|x l IH]; simpl; [constructor|].
  now apply insert_by_sorted.
Qed.

Lemma insert_by_front {A : Type} (key : A -> float) asc (x : A) (l : list A) :
  Forall (key_ord key asc x) l -> insert_by key asc x l = x :: l.
Proof.
  destruct l as [|y l]; [reflexivity|]. intros H. inversion H as [|? ? Hy _]; subst.
  simpl. unfold key_ord in Hy. now rewrite Hy.
Qed.

Lemma insert_by_filter {A : Type} (key : A -> float) asc (p : A -> bool) x l :
  StronglySorted (key_ord key asc) l ->
  filter p (insert_by key asc x l) =
  if p x then insert_by key asc x (filter p l) else filter p l.
Proof.
  induction 1 as [|y l Hs IH Hall]; simpl.
  - destruct (p x); reflexivity.
  - destruct (key_leb asc (key x) (key y)) eqn:E; simpl.
    + destruct (p x) eqn:Px, (p y) eqn:Py; simpl; rewrite ?E; try reflexivity.
      symmetry. apply insert_by_front.
      apply Forall_forall. intros z Hz. apply filter_In in Hz as [Hz _].
      rewrite Forall_forall in Hall. unfold key_ord in *.
      eapply key_leb_trans; [exact E|]. now apply Hall.
    + rewrite IH. destruct (p x) eqn:Px, (p y) eqn:Py; simpl; rewrite ?E; reflexivity.
Qed.

(** The stable sort leaves the rows of a sub-frame in the order they have
    in the sorted frame. *)
Lemma stable_sort_filter {A : Type} (key : A -> float) asc (p : A -> bool) l :
  stable_sort key asc (filter p l) = filter p (stable_sort key asc l).
Proof.
  induction l as [|x l IH]; simpl; [reflexivity|].
  rewrite insert_by_filter by apply stable_sort_sorted.
  destruct (p x); simpl; now rewrite IH.
Qed.

#[global] Instance StableSort : SortValues := {
  sort_values := @stable_sort;
  sort_values_perm := @stable_sort_perm;
  sort_values_sorted := @stable_sort_sorted
}.

Lemma stable_sort_tied {A : Type} (key : A -> float) asc (l : list A) :
  (forall x y, In x l -> In y l -> key_ord key asc x y) ->
  stable_sort key asc l = l.
Proof.
  induction l as [|x l IH]; intros Htied; simpl; [reflexivity|].
  rewrite IH by (intros; apply Htied; now right).
  apply insert_by_front, Forall_forall.
  intros y Hy. apply Htied; [now left|now right].
Qed.

Lemma StableSort_keeps_ties : keeps_ties StableSort.
Proof.
  intros A key asc tied l Htied. simpl.
  rewrite <- stable_sort_filter. apply stable_sort_tied.
  intros x y Hx Hy. apply filter_In in Hx as [Hx Tx], Hy as [Hy Ty]. auto.
Qed.

Lemma StableSort_sorts_subframes_alike : sorts_subframes_alike StableSort.
Proof. intros A key asc keep l. apply stable_sort_filter. Qed.

(** * Facts about lists *)

Lemma Permutation_filter {A : Type} (keep : A -> bool) (l1 l2 : list A) :
  Permutation l1 l2 -> Permutation (filter keep l1) (filter keep l2).
Proof.
  intros Hperm.
  induction Hperm as [|x l1 l2 _ IH|x y l|l1 l2 l3 _ IH12 _ IH23]; simpl.
  - constructor.
  - destruct (keep x); [now constructor|exact IH].
  - destruct (keep x), (keep y); try reflexivity. apply perm_swap.
  - now transitivity (filter keep l2).
Qed.

Lemma filter_partition {A : Type} (f : A -> bool) (l : list A) :
  Permutation (filter f l ++ filter (fun x => negb (f x)) l) l.
Proof.
  induction l as [|x l IH]; simpl; [constructor|].
  destruct (f x); simpl.
  - now constructor.
  - rewrite <- Permutation_middle. now constructor.
Qed.

Lemma filter_all {A : Type} (f : A -> bool) (l : list A) :
  (forall x, In x l -> f x = true) -> filter f l = l.
Proof.
  induction l as [|x l IH]; intros H; simpl; [reflexivity|].
  rewrite (H x) by now left. f_equal. apply IH. intros; apply H; now right.
Qed.

Lemma filter_swap {A : Type} (p q : A -> bool) (l : list A) :
  filter p (filter q l) = filter q (filter p l).
Proof.
  induction l as [|x l IH]; simpl; [reflexivity|].
  destruct (p x) eqn:Px, (q x) eqn:Qx; simpl; rewrite ?Px, ?Qx, IH; reflexivity.
Qed.

Lemma filter_ext_In {A : Type} (p q : A -> bool) (l : list A) :
  (forall x, In x l -> p x = q x) -> filter p l = filter q l.
Proof.
  induction l as [|x l IH]; intros H; simpl; [reflexivity|].
  rewrite (H x) by now left. rewrite IH; [reflexivity|].
  intros; apply H; now right.
Qed.

Lemma filter_andb {A : Type} (p q : A -> bool) (l : list A) :
  filter p (filter q l) = filter (fun x => p x && q x) l.
Proof.
  induction l as [|x l IH]; simpl; [reflexivity|].
  destruct (q x); simpl; rewrite ?andb_true_r, ?andb_false_r.
  - destruct (p x); now rewrite IH.
  - exact IH.
Qed.

(** * Facts about [select_squad] *)

Module AuctionFacts.
Import Auction.
Local Open Scope string_scope.
Local Open Scope Z_scope.

Lemma len_app {A : Type} (l1 l2 : list A) : len (l1 ++ l2) = len l1 + len l2.
Proof. unfold len. rewrite length_app. lia. Qed.

Lemma len_nonneg {A : Type} (l : list A) : 0 <= len l.
Proof. unfold len. lia. Qed.

Lemma fle_Some (a b : float) :
  fle a b = true -> exists x y, a = Some x /\ b = Some y /\ (x <= y)%Q.
Proof.
  destruct a as [x|], b as [y|]; simpl; try discriminate.
  intros H. exists x, y. repeat split. now apply Qle_bool_iff.
Qed.

Lemma fadd_Some (a b : float) (z : Q) :
  fadd a b = Some z -> exists x y, a = Some x /\ b = Some y /\ z = (x + y)%Q.
Proof.
  destruct a as [x|], b as [y|]; simpl; try discriminate.
  intros H. injection H as <-. now exists x, y.
Qed.

Section Phases.

Context {sorter : SortValues}.
Variable total_purse : float.
Variables squad_size max_overseas min_overseas : Z.

#[local] Abbreviation phase1 := (phase1 total_purse squad_size max_overseas min_overseas).
#[local] Abbreviation may_add := (may_add total_purse squad_size).
#[local] Abbreviation fill_role := (fill_role total_purse squad_size).
#[local] Abbreviation phase2 := (phase2 total_purse squad_size).
#[local] Abbreviation phase3 := (phase3 total_purse squad_size).
#[local] Abbreviation run_phases := (run_phases total_purse squad_size max_overseas min_overseas).
#[local] Abbreviation within_budget := (within_budget total_purse).

(** Induction principles: an invariant kept by every guarded addition is
    kept by the loop. *)

Lemma phase1_invariant (I : state -> Prop) (rows : list Row) :
  (forall row st, In row rows -> I st ->
     can_afford total_purse (spent st) (predicted_price row) = true ->
     len (selected_rows st) < squad_size ->
     overseas_count st < max_overseas ->
     I (add_overseas row st)) ->
  forall st, I st -> I (phase1 rows st).
Proof.
  induction rows as [|row rest IH]; intros Hadd st Hst; simpl; [exact Hst|].
  destruct (min_overseas <=? overseas_count st); [exact Hst|].
  destruct (can_afford total_purse (spent st) (predicted_price row)) eqn:Ea;
    simpl; [|apply IH; auto with datatypes].
  destruct (len (selected_rows st) <? squad_size) eqn:El; simpl;
    [|apply IH; auto with datatypes].
  destruct (overseas_count st <? max_overseas) eqn:Eo;
    [|apply IH; auto with datatypes].
  apply IH; [auto with datatypes|].
  apply Z.ltb_lt in El, Eo. apply Hadd; auto with datatypes.
Qed.

Lemma fill_role_invariant (I : state -> Prop) (rows : list Row) :
  (forall row st, In row rows -> I st -> may_add row st = true ->
     I (add_domestic row st)) ->
  forall st, I st -> I (fill_role rows st).
Proof.
  induction rows as [|row rest IH]; intros Hadd st Hst; simpl; [exact Hst|].
  destruct (may_add row st) eqn:Em; [|apply IH; auto with datatypes].
  assert (I (add_domestic row st)) by (apply Hadd; auto with datatypes).
  destruct (full squad_size (add_domestic row st)); [assumption|].
  apply IH; auto with datatypes.
Qed.

Lemma phase2_invariant (I : state -> Prop) (cands : list Row) :
  (forall row st, In row cands -> is_indian row = true -> I st ->
     may_add row st = true -> I (add_domestic row st)) ->
  forall reqs st, I st -> I (phase2 cands reqs st).
Proof.
  intros Hadd reqs.
  induction reqs as [|[rl needed] more IH]; intros st Hst; simpl; [exact Hst|].
  set (role_cands := filter _ cands).
  assert (I (fill_role role_cands st)) as Hfill.
  { apply fill_role_invariant; [|exact Hst].
    intros row st' Hin. apply filter_In in Hin as [Hin Hp].
    apply andb_prop in Hp as [Hi _]. now apply Hadd. }
  destruct (full squad_size (fill_role role_cands st)); [exact Hfill|].
  now apply IH.
Qed.

Lemma phase3_invariant (I : state -> Prop) (rows : list Row) :
  (forall row st, In row rows -> I st -> may_add row st = true ->
     I (add_domestic row st)) ->
  forall st, I st -> I (phase3 rows st).
Proof.
  induction rows as [|row rest IH]; intros Hadd st Hst; simpl; [exact Hst|].
  assert (I (if may_add row st then add_domestic row st else st)) as Hst'.
  { destruct (may_add row st) eqn:Em; [|exact Hst].
    apply Hadd; auto with datatypes. }
  destruct (full squad_size _); [exact Hst'|].
  apply IH; auto with datatypes.
Qed.

Lemma run_phases_invariant (I1 I2 : state -> Prop) (cands : list Row)
    (reqs : list (string * Z)) :
  I1 init ->
  (forall row st, In row cands -> is_overseas row = true -> I1 st ->
     can_afford total_purse (spent st) (predicted_price row) = true ->
     len (selected_rows st) < squad_size ->
     overseas_count st < max_overseas ->
     I1 (add_overseas row st)) ->
  (forall st, I1 st -> I2 (track_keys st)) ->
  (forall row st, In row cands -> is_indian row = true -> I2 st ->
     may_add row st = true -> I2 (add_domestic row st)) ->
  I2 (run_phases cands reqs).
Proof.
  intros Hinit Hov Htrack Hdom. unfold Auction.run_phases.
  apply phase3_invariant.
  - intros row st Hin. apply filter_In in Hin as [Hin Hi]. now apply Hdom.
  - apply phase2_invariant; [exact Hdom|].
    apply Htrack. apply phase1_invariant; [|exact Hinit].
    intros row st Hin. apply filter_In in Hin as [Hin Hi]. now apply Hov.
Qed.

(** *** Budget *)

Lemma sum_price_app (l1 l2 : list Row) :
  (sum_price (l1 ++ l2) == sum_price l1 + sum_price l2)%Q.
Proof. induction l1 as [|r l1 IH]; simpl; [lra|]. rewrite IH. lra. Qed.

Lemma sum_price_perm (l1 l2 : list Row) :
  Permutation l1 l2 -> (sum_price l1 == sum_price l2)%Q.
Proof. induction 1; simpl; lra. Qed.

Lemma within_budget_add (row : Row) (st : state) :
  within_budget st ->
  can_afford total_purse (spent st) (predicted_price row) = true ->
  exists s : Q,
    fadd (spent st) (predicted_price row) = Some s
    /\ (sum_price (selected_rows st ++ [row]) == s)%Q
    /\ fle (Some s) total_purse = true.
Proof.
  intros (s & Hs & Hsum & _) Ha. unfold can_afford in Ha.
  destruct (fle_Some _ _ Ha) as (z & P & Hz & HP & Hle).
  destruct (fadd_Some _ _ _ Hz) as (s' & p & Hs' & Hp & ->).
  rewrite Hs in Hs'. injection Hs' as <-.
  exists (s + p)%Q. rewrite Hs, Hp. simpl. split; [reflexivity|]. split.
  - rewrite sum_price_app, Hsum. simpl. rewrite Hp. simpl. lra.
  - rewrite HP. simpl. now apply Qle_bool_iff.
Qed.

Lemma run_phases_within_budget (cands : list Row) (reqs : list (string * Z)) :
  fle (Some 0%Q) total_purse = true ->
  within_budget (run_phases cands reqs).
Proof.
  intros Hpurse.
  apply run_phases_invariant with (I1 := within_budget).
  - exists 0%Q. simpl. split; [reflexivity|]. split; [reflexivity|exact Hpurse].
  - intros row st _ _ Hst Ha _ _. now apply within_budget_add.
  - intros st Hst. exact Hst.
  - intros row st _ _ Hst Hm. apply within_budget_add; [exact Hst|].
    unfold Auction.may_add in Hm.
    apply andb_prop in Hm as [Hm _]. now apply andb_prop in Hm as [_ Hm].
Qed.

(** *** Overseas cap *)

Lemma cell_eqb_eq (cell : option string) (s : string) :
  cell_eqb cell s = true <-> cell = Some s.
Proof.
  destruct cell as [v|]; simpl.
  - rewrite String.eqb_eq. split; [now intros ->|now intros [= ->]].
  - split; discriminate.
Qed.

Lemma indian_not_overseas (r : Row) : is_indian r = true -> is_overseas r = false.
Proof.
  unfold is_indian, is_overseas. intros H. apply cell_eqb_eq in H.
  rewrite H. reflexivity.
Qed.

Lemma count_overseas_snoc (sel : list Row) (row : Row) :
  count_overseas (sel ++ [row]) =
  count_overseas sel + (if is_overseas row then 1 else 0).
Proof.
  unfold count_overseas. rewrite filter_app, len_app. simpl.
  destruct (is_overseas row); reflexivity.
Qed.

Lemma run_phases_overseas_cap (cands : list Row) (reqs : list (string * Z)) :
  0 <= max_overseas ->
  count_overseas (selected_rows (run_phases cands reqs)) <= max_overseas.
Proof.
  intros Hmax.
  apply run_phases_invariant
    with (I1 := fun st => count_overseas (selected_rows st) = overseas_count st
                          /\ overseas_count st <= max_overseas)
         (I2 := fun st => count_overseas (selected_rows st) <= max_overseas).
  - split; [reflexivity|exact Hmax].
  - intros row st _ Hov [Hc Hle] _ _ Hlt. simpl.
    rewrite count_overseas_snoc, Hov. lia.
  - intros st [Hc Hle]. simpl. lia.
  - intros row st _ Hi Hle _. simpl.
    rewrite count_overseas_snoc, (indian_not_overseas _ Hi). lia.
Qed.

(** *** Buckets and numeric cells of the selected rows *)

Lemma run_phases_selected (P : Row -> Prop) (cands : list Row)
    (reqs : list (string * Z)) :
  (forall row spent0, In row cands ->
     is_overseas row = true \/ is_indian row = true ->
     can_afford total_purse spent0 (predicted_price row) = true -> P row) ->
  Forall P (selected_rows (run_phases cands reqs)).
Proof.
  intros HP.
  apply run_phases_invariant
    with (I1 := fun st => Forall P (selected_rows st))
         (I2 := fun st => Forall P (selected_rows st)).
  - constructor.
  - intros row st Hin Hov Hst Ha _ _. simpl. apply Forall_app. split; [exact Hst|].
    constructor; [|constructor]. eapply HP; eauto.
  - intros st Hst. exact Hst.
  - intros row st Hin Hi Hst Hm. simpl. apply Forall_app. split; [exact Hst|].
    constructor; [|constructor]. unfold Auction.may_add in Hm.
    apply andb_prop in Hm as [Hm _]. apply andb_prop in Hm as [_ Hm].
    eapply HP; eauto.
Qed.

(** *** Distinct keys *)

Lemma filter_keeps_keys_distinct (keep : Row -> bool) (rows : list Row) :
  NoDup (map row_key rows) -> NoDup (map row_key (filter keep rows)).
Proof.
  induction rows as [|r rows IH]; simpl; intros Hnd; [constructor|].
  inversion Hnd as [|k ks Hk Hks]; subst.
  destruct (keep r); simpl; [|now apply IH].
  constructor; [|now apply IH].
  intros Hin. apply Hk. apply in_map_iff in Hin as (r' & Hr & Hin).
  apply filter_In in Hin as [Hin _]. apply in_map_iff. now exists r'.
Qed.

Lemma key_eqb_eq (k1 k2 : string * Z) : key_eqb k1 k2 = true <-> k1 = k2.
Proof.
  destruct k1 as [n1 y1], k2 as [n2 y2]. unfold key_eqb. simpl.
  rewrite andb_true_iff, String.eqb_eq, Z.eqb_eq. split.
  - intros [-> ->]. reflexivity.
  - intros H. injection H as -> ->. now split.
Qed.

Lemma key_in_In (k : string * Z) (keys : list (string * Z)) :
  key_in k keys = true <-> In k keys.
Proof.
  unfold key_in. rewrite existsb_exists. split.
  - intros (k' & Hin & He). apply key_eqb_eq in He. now subst.
  - intros Hin. exists k. split; [exact Hin|]. now apply key_eqb_eq.
Qed.

Lemma phase1_distinct (rows : list Row) :
  forall st,
    NoDup (map row_key (selected_rows st ++ rows)) ->
    NoDup (map row_key (selected_rows (phase1 rows st))).
Proof.
  induction rows as [|row rest IH]; intros st Hnd; simpl.
  - now rewrite app_nil_r in Hnd.
  - assert (NoDup (map row_key (selected_rows st))) as Hsel.
    { rewrite map_app in Hnd. now apply NoDup_app_remove_r in Hnd. }
    assert (NoDup (map row_key (selected_rows st ++ rest))) as Hskip.
    { rewrite map_app in *. simpl in Hnd. now apply NoDup_remove_1 in Hnd. }
    destruct (min_overseas <=? overseas_count st); [exact Hsel|].
    destruct (can_afford total_purse (spent st) (predicted_price row)
              && (len (selected_rows st) <? squad_size)
              && (overseas_count st <? max_overseas)).
    + apply IH. simpl. now rewrite <- app_assoc.
    + now apply IH.
Qed.

Lemma keys_tracked_add (row : Row) (st : state) :
  keys_tracked st -> may_add row st = true ->
  keys_tracked (add_domestic row st).
Proof.
  intros [Hnd Hkeys] Hm. unfold Auction.may_add in Hm.
  apply andb_prop in Hm as [Hm _]. apply andb_prop in Hm as [Hm _].
  apply negb_true_iff in Hm.
  assert (~ In (row_key row) (selected_keys st)) as Hfresh.
  { intros Hin. apply key_in_In in Hin. congruence. }
  split; simpl.
  - rewrite map_app. simpl.
    apply Permutation_NoDup with (l := row_key row :: map row_key (selected_rows st)).
    + apply Permutation_cons_append.
    + constructor; [|exact Hnd].
      intros Hin. apply in_map_iff in Hin as (r & Hr & Hin).
      apply Hfresh. rewrite <- Hr. now apply Hkeys.
  - intros r Hin. apply in_app_or in Hin as [Hin|[<-|[]]].
    + right. now apply Hkeys.
    + now left.
Qed.

Lemma run_phases_distinct (cands : list Row) (reqs : list (string * Z)) :
  NoDup (map row_key cands) ->
  keys_tracked (run_phases cands reqs).
Proof.
  intros Hnd. unfold Auction.run_phases.
  apply phase3_invariant; [intros; now apply keys_tracked_add|].
  apply phase2_invariant; [intros; now apply keys_tracked_add|].
  split; simpl.
  - apply phase1_distinct. simpl. now apply filter_keeps_keys_distinct.
  - intros r Hin. now apply in_map.
Qed.

(** *** Rows that no phase can add *)

Lemma can_afford_nan (spent0 : float) : can_afford total_purse spent0 NaN = false.
Proof. unfold can_afford. destruct spent0; reflexivity. Qed.

Lemma may_add_nan (row : Row) (st : state) :
  predicted_price row = NaN -> may_add row st = false.
Proof.
  intros H. unfold Auction.may_add. rewrite H, can_afford_nan.
  now rewrite andb_false_r.
Qed.

Lemma may_add_full (row : Row) (st : state) :
  full squad_size st = true -> may_add row st = false.
Proof.
  unfold full, Auction.may_add. intros H. apply Z.leb_le in H.
  replace (len (selected_rows st) <? squad_size) with false
    by (symmetry; apply Z.ltb_ge; lia).
  now rewrite andb_false_r.
Qed.

Lemma phase1_stuck (rows : list Row) (st : state) :
  min_overseas <= overseas_count st \/ max_overseas <= overseas_count st ->
  phase1 rows st = st.
Proof.
  intros H. induction rows as [|row rest IH]; simpl; [reflexivity|].
  destruct (min_overseas <=? overseas_count st) eqn:E; [reflexivity|].
  apply Z.leb_gt in E.
  replace (overseas_count st <? max_overseas) with false
    by (symmetry; apply Z.ltb_ge; lia).
  rewrite andb_false_r. exact IH.
Qed.

Lemma phase3_full (rows : list Row) (st : state) :
  full squad_size st = true -> phase3 rows st = st.
Proof.
  intros H. destruct rows as [|row rest]; simpl; [reflexivity|].
  now rewrite (may_add_full row st H), H.
Qed.

Lemma phase1_skips_nan (rows : list Row) :
  forall st,
    phase1 (filter (fun r => notna (predicted_price r)) rows) st = phase1 rows st.
Proof.
  induction rows as [|row rest IH]; intros st; [reflexivity|].
  cbn [filter]. destruct (predicted_price row) as [p|] eqn:Ep; cbn [notna].
  - simpl. rewrite Ep, !IH. reflexivity.
  - rewrite IH. simpl. rewrite Ep, can_afford_nan. simpl.
    destruct (min_overseas <=? overseas_count st) eqn:E; [|reflexivity].
    apply phase1_stuck. left. now apply Z.leb_le.
Qed.

Lemma fill_role_skips_nan (rows : list Row) :
  forall st,
    fill_role (filter (fun r => notna (predicted_price r)) rows) st
    = fill_role rows st.
Proof.
  induction rows as [|row rest IH]; intros st; [reflexivity|].
  cbn [filter]. destruct (predicted_price row) as [p|] eqn:Ep; cbn [notna].
  - simpl. rewrite !IH. reflexivity.
  - rewrite IH. simpl. now rewrite (may_add_nan row st Ep).
Qed.

Lemma phase3_skips_nan (rows : list Row) :
  forall st,
    phase3 (filter (fun r => notna (predicted_price r)) rows) st
    = phase3 rows st.
Proof.
  induction rows as [|row rest IH]; intros st; [reflexivity|].
  cbn [filter]. destruct (predicted_price row) as [p|] eqn:Ep; cbn [notna].
  - simpl. rewrite !IH. reflexivity.
  - rewrite IH. simpl. rewrite (may_add_nan row st Ep).
    destruct (full squad_size st) eqn:E; [|reflexivity].
    now apply phase3_full.
Qed.

Lemma phase2_skips_nan (cands : list Row) (reqs : list (string * Z)) :
  forall st,
    phase2 (filter (fun r => notna (predicted_price r)) cands) reqs st
    = phase2 cands reqs st.
Proof.
  induction reqs as [|[rl needed] more IH]; intros st; simpl; [reflexivity|].
  rewrite filter_swap, fill_role_skips_nan, IH. reflexivity.
Qed.

Lemma run_phases_skips_nan (cands : list Row) (reqs : list (string * Z)) :
  run_phases (filter (fun r => notna (predicted_price r)) cands) reqs
  = run_phases cands reqs.
Proof.
  unfold Auction.run_phases.
  rewrite (filter_swap is_overseas), (filter_swap is_indian).
  rewrite phase1_skips_nan, phase2_skips_nan, phase3_skips_nan. reflexivity.
Qed.

(** *** An empty candidate list *)

Lemma phase2_nil (reqs : list (string * Z)) (st : state) : phase2 [] reqs st = st.
Proof.
  induction reqs as [|[rl needed] more IH]; simpl; [reflexivity|].
  destruct (full squad_size st); [reflexivity|exact IH].
Qed.

Lemma run_phases_nil (reqs : list (string * Z)) : run_phases [] reqs = init.
Proof. unfold Auction.run_phases. simpl. now rewrite phase2_nil. Qed.

(** *** A squad size that leaves no slot *)

Lemma run_phases_no_slot (cands : list Row) (reqs : list (string * Z)) :
  squad_size <= 0 -> selected_rows (run_phases cands reqs) = [].
Proof.
  intros Hsize.
  apply run_phases_invariant
    with (I1 := fun st => selected_rows st = [])
         (I2 := fun st => selected_rows st = []).
  - reflexivity.
  - intros row st _ _ Hst _ Hlen _.
    pose proof (len_nonneg (selected_rows st)). lia.
  - intros st Hst. exact Hst.
  - intros row st _ _ Hst Hm. unfold Auction.may_add in Hm.
    apply andb_prop in Hm as [_ Hm]. apply Z.ltb_lt in Hm.
    pose proof (len_nonneg (selected_rows st)). lia.
Qed.

(** *** A floor above the cap *)

Lemma phase1_floor_above_cap (rows : list Row) :
  max_overseas < min_overseas ->
  forall st,
    phase1 rows st
    = Auction.phase1 total_purse squad_size max_overseas max_overseas rows st.
Proof.
  intros Hlt. induction rows as [|row rest IH]; intros st; simpl; [reflexivity|].
  destruct (max_overseas <=? overseas_count st) eqn:Ecap.
  - apply Z.leb_le in Ecap.
    destruct (min_overseas <=? overseas_count st); [reflexivity|].
    replace (overseas_count st <? max_overseas) with false
      by (symmetry; apply Z.ltb_ge; lia).
    rewrite andb_false_r. apply phase1_stuck. now right.
  - apply Z.leb_gt in Ecap.
    replace (min_overseas <=? overseas_count st) with false
      by (symmetry; apply Z.leb_gt; lia).
    rewrite !IH. reflexivity.
Qed.

End Phases.

(** ** The squad [select_squad] returns *)

Section Squad.

Context {sorter : SortValues}.
Variable df : list Row.
Variable yr : Z.
Variable total_purse : float.
Variables squad_size max_overseas min_overseas : Z.
Variable role_requirements : option (list (string * Z)).

#[local] Abbreviation squad :=
  (select_squad df yr total_purse squad_size max_overseas min_overseas
     role_requirements).
#[local] Abbreviation final_state :=
  (run_phases total_purse squad_size max_overseas min_overseas
     (candidates_of df yr) (requirements_or_default role_requirements)).

Lemma to_squad_df_Ok (rows roster : list Row) :
  to_squad_df rows = Ok roster -> Permutation roster rows.
Proof.
  destruct rows as [|r rows]; simpl; [discriminate|].
  intros H. injection H as <-. apply sort_values_perm.
Qed.

Lemma select_squad_Ok (roster : list Row) :
  squad = Ok roster -> Permutation roster (selected_rows final_state).
Proof. apply to_squad_df_Ok. Qed.

Lemma candidates_of_In (r : Row) :
  In r (candidates_of df yr) <-> In r df /\ eligible yr r = true.
Proof.
  unfold candidates_of. rewrite <- filter_In.
  split; apply Permutation_in; [|symmetry]; apply sort_values_perm.
Qed.

Lemma candidates_of_distinct :
  NoDup (map row_key df) -> NoDup (map row_key (candidates_of df yr)).
Proof.
  intros H. unfold candidates_of.
  apply Permutation_NoDup with (l := map row_key (filter (eligible yr) df)).
  - apply Permutation_map. symmetry. apply sort_values_perm.
  - now apply filter_keeps_keys_distinct.
Qed.

(** The overseas cap of [select_squad]. *)
Lemma select_squad_overseas_cap (roster : list Row) :
  0 <= max_overseas -> squad = Ok roster ->
  count_overseas roster <= max_overseas.
Proof.
  intros Hmax Hok. apply select_squad_Ok in Hok.
  unfold count_overseas, len.
  rewrite (Permutation_length (Permutation_filter is_overseas _ _ Hok)).
  now apply run_phases_overseas_cap.
Qed.

Lemma select_squad_distinct (roster : list Row) :
  NoDup (map row_key df) -> squad = Ok roster -> NoDup (map row_key roster).
Proof.
  intros Hnd Hok. apply select_squad_Ok in Hok.
  apply Permutation_NoDup with (l := map row_key (selected_rows final_state)).
  - apply Permutation_map. now symmetry.
  - apply run_phases_distinct. now apply candidates_of_distinct.
Qed.


(** C3: when no row passes the year/SOLD/score filter, [select_squad]
    raises [KeyError] where the specification asks for an empty roster. *)
Theorem select_squad_empty_pool_raises :
  (forall r, In r df -> eligible yr r = false) ->
  squad = Raise (KeyError "efficiency_score").
Proof.
  intros Hnone. unfold select_squad.
  assert (candidates_of df yr = []) as ->.
  { destruct (candidates_of df yr) as [|r l] eqn:E; [reflexivity|].
    assert (In r (candidates_of df yr)) as Hin by (rewrite E; now left).
    apply candidates_of_In in Hin as [Hin He].
    rewrite (Hnone r Hin) in He. discriminate. }
  now rewrite run_phases_nil.
Qed.

(** C5, as the code has it: no parameter is validated.  A floor above the
    cap selects as a floor equal to the cap does, and a squad size that is
    not positive selects nobody. *)
Theorem select_squad_no_validation :
  (max_overseas < min_overseas ->
   squad = select_squad df yr total_purse squad_size max_overseas max_overseas
             role_requirements)
  /\ (squad_size <= 0 -> selected_rows final_state = []).
Proof.
  split.
  - intros Hlt. unfold select_squad, Auction.run_phases.
    now rewrite phase1_floor_above_cap.
  - apply run_phases_no_slot.
Qed.

Lemma scored_tied (e : Q) (x y : Row) :
  scored e x = true -> scored e y = true ->
  key_ord efficiency_score false x y.
Proof.
  unfold scored, key_ord. destruct (efficiency_score x) as [qx|]; [|discriminate].
  destruct (efficiency_score y) as [qy|]; [|discriminate].
  intros Hx Hy. apply Qeq_bool_iff in Hx, Hy. simpl. apply Qle_bool_iff.
  rewrite Hx, Hy. apply Qle_refl.
Qed.



(** C10: every row of the returned squad has [country_bucket] "Overseas"
    or "Indian"; a row of any other bucket, or of none, is never selected. *)
Theorem select_squad_two_buckets (roster : list Row) (r : Row) :
  squad = Ok roster ->
  country_bucket r <> Some "Overseas" -> country_bucket r <> Some "Indian" ->
  ~ In r roster.
Proof.
  intros Hok Hno Hni Hin. apply select_squad_Ok in Hok.
  apply (Permutation_in _ Hok) in Hin.
  assert (Forall (fun r => country_bucket r = Some "Overseas"
                           \/ country_bucket r = Some "Indian")
            (selected_rows final_state)) as Hall.
  { apply run_phases_selected. intros row _ _ [Ho|Hi] _.
    - left. now apply cell_eqb_eq.
    - right. now apply cell_eqb_eq. }
  rewrite Forall_forall in Hall. destruct (Hall r Hin); contradiction.
Qed.

End Squad.

End AuctionFacts.

(** * [select_squad] on the sample frames *)

Module AuctionExamples.
Import Auction AuctionSamples AuctionFacts.
Local Open Scope string_scope.
Local Open Scope Z_scope.

Example pool_squad :
  select_squad pool 2025 (Some 100%Q) 9 3 1 None = Ok [quick; batter].
Proof. reflexivity. Qed.


Lemma select_squad_empty_pool_raises_witness :
  select_squad [last_year] 2025 (Some 100%Q) 9 3 1 None
  = Raise (KeyError "efficiency_score").
Proof.
  apply select_squad_empty_pool_raises.
  intros r [<-|[]]. reflexivity.
Defined.

(** C5, as stated, fails: a floor above the cap is not refused. *)
Lemma floor_above_cap_accepted :
  select_squad pool 2025 (Some 100%Q) 9 1 2 None = Ok [quick; batter].
Proof. reflexivity. Qed.

Lemma select_squad_no_validation_witness :
  select_squad pool 2025 (Some 100%Q) 9 1 2 None
  = select_squad pool 2025 (Some 100%Q) 9 1 1 None
  /\ selected_rows
       (run_phases (Some 100%Q) 0 3 1 (candidates_of pool 2025)
          (requirements_or_default None)) = [].
Proof.
  split.
  - apply (proj1 (select_squad_no_validation pool 2025 (Some 100%Q) 9 1 2 None)).
    reflexivity.
  - apply (proj2 (select_squad_no_validation pool 2025 (Some 100%Q) 0 3 1 None)).
    discriminate.
Defined.




Lemma select_squad_two_buckets_witness : ~ In associate [quick; batter].
Proof.
  apply (select_squad_two_buckets pool 2025 (Some 100%Q) 9 3 1 None);
    [reflexivity|discriminate|discriminate].
Defined.

End AuctionExamples.

(** * Facts about [select_starting_xi] *)

Module StartingXIFacts.
Import StartingXI.
Local Open Scope string_scope.
Local Open Scope Z_scope.

Lemma count_perm (f : PlayerRow -> bool) (l l' : list PlayerRow) :
  Permutation l l' -> count f l = count f l'.
Proof.
  intros H. unfold count, len.
  now rewrite (Permutation_length (Permutation_filter f _ _ H)).
Qed.

Lemma count_cons (f : PlayerRow -> bool) (x : PlayerRow) (l : list PlayerRow) :
  count f (x :: l) = Z.b2z (f x) + count f l.
Proof.
  unfold count, len. cbn [filter]. destruct (f x); cbn [List.length Z.b2z]; lia.
Qed.

Lemma name_in_In (n : string) (names : list string) :
  name_in n names = true <-> In n names.
Proof.
  unfold name_in. rewrite existsb_exists. split.
  - intros (m & Hin & E). apply String.eqb_eq in E. now subst.
  - intros Hin. exists n. split; [exact Hin|apply String.eqb_refl].
Qed.

(** With distinct names, filtering a name out removes one row. *)
Lemma remove_by_name (x : PlayerRow) (l : list PlayerRow) :
  NoDup (map Player l) -> In x l ->
  Permutation (x :: filter (other_than x) l) l.
Proof.
  induction l as [|y l IH]; intros Hnd Hin; [destruct Hin|].
  simpl in Hnd. inversion Hnd as [|n ns Hy Hl]; subst.
  destruct Hin as [->|Hin].
  - simpl. unfold other_than at 1. rewrite String.eqb_refl. simpl.
    rewrite filter_all; [reflexivity|].
    intros p Hp. unfold other_than. apply negb_true_iff, String.eqb_neq.
    intros E. apply Hy. rewrite <- E. now apply in_map.
  - simpl. unfold other_than at 1.
    assert (Player y <> Player x) as Hne.
    { intros E. apply Hy. rewrite E. now apply in_map. }
    apply String.eqb_neq in Hne. rewrite Hne. simpl.
    rewrite perm_swap. constructor. now apply IH.
Qed.

Section Repairs.

Context {sorter : SortValues}.
Variable max_overseas : Z.
Variable df_team : list PlayerRow.
Hypothesis names_distinct : NoDup (map Player df_team).

#[local] Abbreviation split_team := (split_team df_team).

Lemma split_team_xi_distinct xi_df remaining :
  split_team xi_df remaining -> NoDup (map Player xi_df).
Proof.
  intros H. apply (Permutation_map Player) in H. symmetry in H.
  apply (Permutation_NoDup H) in names_distinct.
  rewrite map_app in names_distinct. now apply NoDup_app_remove_r in names_distinct.
Qed.

Lemma split_team_remaining_distinct xi_df remaining :
  split_team xi_df remaining -> NoDup (map Player remaining).
Proof.
  intros H. apply (Permutation_map Player) in H. symmetry in H.
  apply (Permutation_NoDup H) in names_distinct.
  rewrite map_app in names_distinct. now apply NoDup_app_remove_l in names_distinct.
Qed.

Lemma swap_xi_perm xi_df remaining out_row in_row :
  split_team xi_df remaining -> In out_row xi_df ->
  Permutation (out_row :: swap_xi xi_df out_row in_row) (in_row :: xi_df).
Proof.
  intros Hs Hout. unfold swap_xi, by_score_desc.
  rewrite sort_values_perm. rewrite <- Permutation_cons_append.
  rewrite perm_swap. constructor.
  apply remove_by_name; [|exact Hout]. eapply split_team_xi_distinct; eauto.
Qed.

Lemma swap_remaining_perm xi_df remaining out_row in_row :
  split_team xi_df remaining -> In in_row remaining ->
  Permutation (in_row :: swap_remaining remaining out_row in_row)
    (out_row :: remaining).
Proof.
  intros Hs Hin. unfold swap_remaining.
  rewrite <- Permutation_cons_append. rewrite perm_swap. constructor.
  apply remove_by_name; [|exact Hin]. eapply split_team_remaining_distinct; eauto.
Qed.

Lemma swap_split_team xi_df remaining out_row in_row :
  split_team xi_df remaining -> In out_row xi_df -> In in_row remaining ->
  split_team (swap_xi xi_df out_row in_row)
    (swap_remaining remaining out_row in_row).
Proof.
  intros Hs Hout Hin. unfold split_team.
  pose proof (swap_xi_perm xi_df remaining out_row in_row Hs Hout) as H1.
  pose proof (swap_remaining_perm xi_df remaining out_row in_row Hs Hin) as H2.
  apply Permutation_cons_inv with (a := out_row).
  rewrite app_comm_cons, H1. simpl.
  rewrite Permutation_middle, H2, <- Permutation_middle.
  now constructor.
Qed.

Lemma swap_xi_count (f : PlayerRow -> bool) xi_df remaining out_row in_row :
  split_team xi_df remaining -> In out_row xi_df ->
  count f (swap_xi xi_df out_row in_row)
  = count f xi_df - Z.b2z (f out_row) + Z.b2z (f in_row).
Proof.
  intros Hs Hout.
  pose proof (count_perm f _ _ (swap_xi_perm xi_df remaining out_row in_row Hs Hout)) as H.
  rewrite !count_cons in H. lia.
Qed.

Lemma by_score_desc_In (l : list PlayerRow) (x : PlayerRow) :
  In x (by_score_desc l) <-> In x l.
Proof.
  unfold by_score_desc. split; apply Permutation_in;
    [|symmetry]; apply sort_values_perm.
Qed.

Lemma by_score_asc_In (l : list PlayerRow) (x : PlayerRow) :
  In x (by_score_asc l) <-> In x l.
Proof.
  unfold by_score_asc. split; apply Permutation_in;
    [|symmetry]; apply sort_values_perm.
Qed.

Lemma best_In (f : PlayerRow -> bool) (l t : list PlayerRow) (x : PlayerRow) :
  by_score_desc (filter f l) = x :: t -> In x l /\ f x = true.
Proof.
  intros H. apply filter_In, by_score_desc_In. rewrite H. now left.
Qed.

Lemma weakest_In (f : PlayerRow -> bool) (l t : list PlayerRow) (x : PlayerRow) :
  by_score_asc (filter f l) = x :: t -> In x l /\ f x = true.
Proof.
  intros H. apply filter_In, by_score_asc_In. rewrite H. now left.
Qed.

Lemma find_weakest (f g : PlayerRow -> bool) (l : list PlayerRow) (x : PlayerRow) :
  find g (by_score_asc (filter f l)) = Some x ->
  In x l /\ f x = true /\ g x = true.
Proof.
  intros H. apply find_some in H as [Hin Hg].
  apply by_score_asc_In, filter_In in Hin. tauto.
Qed.

Lemma find_best (f g : PlayerRow -> bool) (l : list PlayerRow) (x : PlayerRow) :
  find g (by_score_desc (filter f l)) = Some x ->
  In x l /\ f x = true /\ g x = true.
Proof.
  intros H. apply find_some in H as [Hin Hg].
  apply by_score_desc_In, filter_In in Hin. tauto.
Qed.

(** Every repair loop keeps what every swap it can make keeps: the row
    going out is in the XI and no keeper, the row coming in is on the bench,
    and the swap was found to fit under the cap. *)

Section Invariant.

Variable Q : list PlayerRow -> list PlayerRow -> Prop.

Hypothesis Q_split : forall xi_df remaining,
  Q xi_df remaining -> split_team xi_df remaining.

Hypothesis Q_swap : forall xi_df remaining out_row in_row,
  Q xi_df remaining ->
  In out_row xi_df -> In in_row remaining -> is_keeper out_row = false ->
  keeps_cap max_overseas (count is_overseas xi_df) out_row in_row = true ->
  Q (swap_xi xi_df out_row in_row) (swap_remaining remaining out_row in_row).

Lemma add_bowlers_keeps (needed : nat) :
  forall xi_df remaining changed,
    Q xi_df remaining ->
    let r := add_bowlers max_overseas needed xi_df remaining changed in
    Q (fst (fst r)) (snd (fst r)).
Proof.
  induction needed as [|n IH]; intros xi_df remaining changed HQ; simpl;
    [exact HQ|].
  destruct (MIN_SPECIAL_BOWLERS <=? count is_bowler_spec xi_df); [exact HQ|].
  destruct (by_score_desc (filter is_bowler_spec remaining))
    as [|in_row t] eqn:Ein; [exact HQ|].
  apply best_In in Ein as [Hin _].
  match goal with |- context [find ?g ?l] =>
    destruct (find g l) as [out_row|] eqn:Eout end; [|exact HQ].
  apply find_weakest in Eout as (Hout & Hflags & Hcap).
  apply andb_prop in Hflags as [_ Hk]. apply negb_true_iff in Hk.
  apply IH. now apply Q_swap.
Qed.

Lemma drop_bowlers_keeps (excess : nat) :
  forall xi_df remaining changed,
    Q xi_df remaining ->
    let r := drop_bowlers max_overseas excess xi_df remaining changed in
    Q (fst (fst r)) (snd (fst r)).
Proof.
  induction excess as [|n IH]; intros xi_df remaining changed HQ; simpl;
    [exact HQ|].
  destruct (count is_bowler_spec xi_df <=? MAX_SPECIAL_BOWLERS); [exact HQ|].
  match goal with |- context [by_score_asc ?l] =>
    destruct (by_score_asc l) as [|out_row t] eqn:Eout end; [exact HQ|].
  apply weakest_In in Eout as [Hout Hflags].
  apply andb_prop in Hflags as [_ Hk]. apply negb_true_iff in Hk.
  match goal with |- context [find ?g ?l] =>
    destruct (find g l) as [in_row|] eqn:Ein end; [|exact HQ].
  apply find_best in Ein as (Hin & _ & Hcap).
  apply IH. now apply Q_swap.
Qed.

Lemma enforce_bowlers_keeps (max_iters : nat) :
  forall xi_df remaining,
    Q xi_df remaining ->
    let r := enforce_bowlers max_overseas max_iters xi_df remaining in
    Q (fst r) (snd r).
Proof.
  induction max_iters as [|n IH]; intros xi_df remaining HQ; simpl; [exact HQ|].
  destruct (count is_bowler_spec xi_df <? MIN_SPECIAL_BOWLERS).
  - destruct (by_score_desc (filter is_bowler_spec remaining)); [exact HQ|].
    pose proof (add_bowlers_keeps
      (Z.to_nat (MIN_SPECIAL_BOWLERS - count is_bowler_spec xi_df))
      xi_df remaining false HQ) as H.
    destruct (add_bowlers _ _ _ _ _) as [[xi' remaining'] changed].
    simpl in H. destruct changed; [now apply IH|exact H].
  - destruct (MAX_SPECIAL_BOWLERS <? count is_bowler_spec xi_df); [|exact HQ].
    match goal with |- context [by_score_asc ?l] =>
      destruct (by_score_asc l) end; [exact HQ|].
    pose proof (drop_bowlers_keeps
      (Z.to_nat (count is_bowler_spec xi_df - MAX_SPECIAL_BOWLERS))
      xi_df remaining false HQ) as H.
    destruct (drop_bowlers _ _ _ _ _) as [[xi' remaining'] changed].
    simpl in H. destruct changed; [now apply IH|exact H].
Qed.

Lemma add_allrounders_keeps (needed_ar : nat) :
  forall xi_df remaining,
    Q xi_df remaining ->
    let r := add_allrounders max_overseas needed_ar xi_df remaining in
    Q (fst r) (snd r).
Proof.
  induction needed_ar as [|n IH]; intros xi_df remaining HQ; simpl; [exact HQ|].
  destruct (MIN_ALLROUNDERS_IF_4 <=? count is_allrounder xi_df); [exact HQ|].
  destruct (by_score_desc (filter is_allrounder remaining))
    as [|in_row t] eqn:Ein; [exact HQ|].
  apply best_In in Ein as [Hin _].
  match goal with |- context [find ?g ?l] =>
    destruct (find g l) as [out_row|] eqn:Eout end; [|exact HQ].
  apply find_weakest in Eout as (Hout & Hflags & Hcap).
  apply andb_prop in Hflags as [_ Hk]. apply negb_true_iff in Hk.
  apply IH. now apply Q_swap.
Qed.

Lemma enforce_allrounders_keeps xi_df remaining :
  Q xi_df remaining ->
  let r := enforce_allrounders max_overseas xi_df remaining in
  Q (fst r) (snd r).
Proof.
  intros HQ. unfold enforce_allrounders.
  destruct (_ && _); [|exact HQ]. now apply add_allrounders_keeps.
Qed.

Lemma ensure_keeper_keeps xi_df remaining :
  Q xi_df remaining ->
  let r := ensure_keeper max_overseas df_team xi_df remaining in
  Q (fst r) (snd r).
Proof.
  intros HQ. unfold ensure_keeper. cbn [keepers overseas _recompute_counts].
  destruct (count is_keeper xi_df =? 0); [|exact HQ].
  destruct (by_score_desc (filter is_keeper df_team))
    as [|best_keeper t] eqn:Ebest; [exact HQ|].
  apply best_In in Ebest as [Hbest _].
  destruct (name_in (Player best_keeper) (map Player xi_df)) eqn:Ename;
    [exact HQ|].
  match goal with |- context [find ?g ?l] =>
    destruct (find g l) as [out_row|] eqn:Eout end; [|exact HQ].
  apply find_weakest in Eout as (Hout & Hk & Hcap). apply negb_true_iff in Hk.
  apply Q_swap; try assumption.
  apply (Permutation_in _ (Permutation_sym (Q_split _ _ HQ))) in Hbest.
  apply in_app_or in Hbest as [Hxi|Hrem]; [|exact Hrem].
  exfalso. apply (in_map Player) in Hxi. apply name_in_In in Hxi. congruence.
Qed.

(** Steps 5 to 8. *)
Lemma repair_keeps xi_df remaining :
  Q xi_df remaining ->
  exists xi3 remaining3,
    Q xi3 remaining3
    /\ repair max_overseas df_team xi_df remaining = by_score_desc xi3.
Proof.
  intros HQ. unfold repair.
  pose proof (enforce_bowlers_keeps 20 xi_df remaining HQ) as H1.
  destruct (enforce_bowlers _ _ _ _) as [xi1 remaining1]. simpl in H1.
  pose proof (enforce_allrounders_keeps xi1 remaining1 H1) as H2.
  destruct (enforce_allrounders _ _ _) as [xi2 remaining2]. simpl in H2.
  pose proof (ensure_keeper_keeps xi2 remaining2 H2) as H3.
  destruct (ensure_keeper _ _ _ _) as [xi3 remaining3]. simpl in H3.
  now exists xi3, remaining3.
Qed.

End Invariant.

(** The split itself, *)
Lemma repair_split xi_df remaining :
  split_team xi_df remaining ->
  exists xi3 remaining3,
    split_team xi3 remaining3
    /\ repair max_overseas df_team xi_df remaining = by_score_desc xi3.
Proof.
  apply repair_keeps with (Q := split_team); [auto|].
  intros; now apply swap_split_team.
Qed.

(** and the overseas cap, once it holds. *)
Lemma repair_capped xi_df remaining :
  split_team xi_df remaining ->
  count is_overseas xi_df <= max_overseas ->
  count is_overseas (repair max_overseas df_team xi_df remaining)
  <= max_overseas.
Proof.
  intros Hs Hcap.
  destruct (repair_keeps
              (fun xi rem => split_team xi rem
                             /\ count is_overseas xi <= max_overseas))
    with (xi_df := xi_df) (remaining := remaining)
    as (xi3 & rem3 & [_ H3] & ->).
  - tauto.
  - intros xi rem out_row in_row [Hsplit _] Hout Hin _ Hfits. split.
    + now apply swap_split_team.
    + rewrite (swap_xi_count is_overseas xi rem out_row in_row Hsplit Hout).
      unfold keeps_cap in Hfits. now apply Z.leb_le in Hfits.
  - now split.
  - unfold by_score_desc.
    now rewrite (count_perm _ _ _ (sort_values_perm _ final_score false xi3)).
Qed.

End Repairs.

Section Seed.

Context {sorter : SortValues}.
Variable max_overseas : Z.

Lemma seed_split (df_team : list PlayerRow) :
  split_team df_team (fst (seed max_overseas df_team))
    (snd (seed max_overseas df_team)).
Proof.
  unfold seed, split_team.
  destruct (lock_keeper df_team) as [names0 oc0].
  destruct (fill_by_score _ _ _ _) as [selected_names oc]. simpl.
  unfold by_score_desc. rewrite sort_values_perm. apply filter_partition.
Qed.

Lemma repair_distinct (df_team xi_df remaining : list PlayerRow) :
  NoDup (map Player df_team) ->
  split_team df_team xi_df remaining ->
  NoDup (map Player (repair max_overseas df_team xi_df remaining)).
Proof.
  intros Hnd Hs.
  destruct (repair_split max_overseas df_team Hnd xi_df remaining Hs)
    as (xi3 & rem3 & H3 & ->).
  apply Permutation_NoDup with (l := map Player xi3).
  - apply Permutation_map. symmetry. apply sort_values_perm.
  - eapply split_team_xi_distinct; eauto.
Qed.

Lemma select_starting_xi_distinct (df_team : list PlayerRow) (pitch_type : string) :
  NoDup (map Player df_team) ->
  NoDup (map Player (fst (select_starting_xi df_team pitch_type max_overseas))).
Proof.
  intros Hnd. unfold select_starting_xi.
  destruct df_team as [|p df]; [constructor|].
  pose proof (seed_split (p :: df)) as Hs.
  destruct (seed max_overseas (p :: df)) as [xi_df remaining]. simpl in Hs.
  destruct xi_df as [|q xi]; [constructor|].
  simpl. now apply repair_distinct.
Qed.

Lemma fill_by_score_keeps (rows : list PlayerRow) (n : string) :
  forall names oc,
    In n names -> In n (fst (fill_by_score max_overseas rows names oc)).
Proof.
  induction rows as [|row rest IH]; intros names oc Hin; simpl; [exact Hin|].
  destruct (11 <=? len names); [exact Hin|].
  destruct (name_in (Player row) names); [now apply IH|].
  destruct (is_overseas row && (max_overseas <=? oc)); [now apply IH|].
  apply IH. apply in_or_app. now left.
Qed.

(** The locked keeper is in the seeded XI. *)
Lemma seed_has_top_keeper (df_team t : list PlayerRow) (k : PlayerRow) :
  by_score_desc (filter is_keeper df_team) = k :: t ->
  In k (fst (seed max_overseas df_team)).
Proof.
  intros Hk. unfold seed, lock_keeper. rewrite Hk.
  pose proof (fill_by_score_keeps (by_score_desc df_team) (Player k)
                [Player k] (if is_overseas k then 1 else 0)) as Hkeep.
  destruct (fill_by_score _ _ _ _) as [selected_names oc]. simpl in *.
  apply by_score_desc_In, filter_In. split.
  - now apply best_In in Hk.
  - apply name_in_In, Hkeep. now left.
Qed.

Lemma enforce_bowlers_in_band (max_iters : nat) (xi_df remaining : list PlayerRow) :
  MIN_SPECIAL_BOWLERS <= count is_bowler_spec xi_df <= MAX_SPECIAL_BOWLERS ->
  enforce_bowlers max_overseas max_iters xi_df remaining = (xi_df, remaining).
Proof.
  intros [Hlo Hhi]. destruct max_iters as [|n]; simpl; [reflexivity|].
  replace (count is_bowler_spec xi_df <? MIN_SPECIAL_BOWLERS) with false
    by (symmetry; apply Z.ltb_ge; lia).
  replace (MAX_SPECIAL_BOWLERS <? count is_bowler_spec xi_df) with false
    by (symmetry; apply Z.ltb_ge; lia).
  reflexivity.
Qed.

Lemma allrounder_not_bowler (p : PlayerRow) :
  is_allrounder p = true -> is_bowler_spec p = false.
Proof.
  unfold is_allrounder, is_bowler_spec. intros H. apply String.eqb_eq in H.
  now rewrite H.
Qed.

Lemma find_exists {A : Type} (g : A -> bool) (l : list A) (x : A) :
  In x l -> g x = true -> exists y, find g l = Some y.
Proof.
  intros Hin Hg. destruct (find g l) as [y|] eqn:E; [now exists y|].
  exfalso. pose proof (find_none g l E x Hin). congruence.
Qed.

Lemma count_pos_In (f : PlayerRow -> bool) (l : list PlayerRow) (x : PlayerRow) :
  In x l -> f x = true -> 1 <= count f l.
Proof.
  intros Hin Hf. unfold count, len.
  assert (In x (filter f l)) as H by (apply filter_In; now split).
  destruct (filter f l); [destruct H|]. simpl. lia.
Qed.

(** C8, as the code has it: with distinct names, a seeded XI of exactly 4
    specialist bowlers and 1 allrounder, and the best-scoring bench
    allrounder (the only one the code tries) fitting under the overseas cap
    in place of some pure batter of the XI, the final XI has at least 2
    allrounders and still 4 specialist bowlers. *)
Theorem best_bench_allrounder_swapped_in (df_team xi0 rem0 : list PlayerRow) (pitch_type : string)
    (best out_row : PlayerRow) (t : list PlayerRow) :
  NoDup (map Player df_team) ->
  seed max_overseas df_team = (xi0, rem0) ->
  count is_bowler_spec xi0 = MIN_SPECIAL_BOWLERS ->
  count is_allrounder xi0 = 1 ->
  by_score_desc (filter is_allrounder rem0) = best :: t ->
  In out_row xi0 ->
  is_allrounder out_row = false ->
  is_bowler_spec out_row = false ->
  is_keeper out_row = false ->
  keeps_cap max_overseas (count is_overseas xi0) out_row best = true ->
  let xi := fst (select_starting_xi df_team pitch_type max_overseas) in
  MIN_ALLROUNDERS_IF_4 <= count is_allrounder xi
  /\ count is_bowler_spec xi = MIN_SPECIAL_BOWLERS.
Proof.
  intros Hnd Hseed Hb Har Hbest Hout Hout_ar Hout_b Hout_k Hcap xi.
  pose proof (seed_split df_team) as Hs. rewrite Hseed in Hs. simpl in Hs.
  assert (forall k t', by_score_desc (filter is_keeper df_team) = k :: t' ->
                       In k xi0) as Hkeeper.
  { intros k t' Hk. pose proof (seed_has_top_keeper df_team t' k Hk) as H.
    now rewrite Hseed in H. }
  subst xi. unfold select_starting_xi.
  destruct df_team as [|p0 df] eqn:Edf.
  { unfold split_team in Hs. apply Permutation_sym, Permutation_nil in Hs.
    apply app_eq_nil in Hs as [-> _]. discriminate. }
  rewrite <- Edf in *. rewrite Hseed.
  destruct xi0 as [|q0 xi0'] eqn:Exi; [discriminate|]. rewrite <- Exi in *.
  cbn [fst]. unfold repair.
  rewrite enforce_bowlers_in_band
    by (rewrite Hb; unfold MIN_SPECIAL_BOWLERS, MAX_SPECIAL_BOWLERS; lia).
  (* one round of the allrounder loop *)
  unfold enforce_allrounders. cbn [bowlers allrounders _recompute_counts].
  rewrite Hb, Har.
  change ((MIN_SPECIAL_BOWLERS =? MIN_SPECIAL_BOWLERS)
          && (1 <? MIN_ALLROUNDERS_IF_4)) with true. cbv iota.
  change (Z.to_nat (MIN_ALLROUNDERS_IF_4 - 1)) with 1%nat.
  cbn [add_allrounders]. cbn [bowlers allrounders overseas _recompute_counts].
  rewrite Har, Hbest.
  change (MIN_ALLROUNDERS_IF_4 <=? 1) with false. cbv iota.
  match goal with |- context [find ?g ?l] =>
    destruct (find_exists g l out_row) as [out' Hfind] end.
  { apply by_score_asc_In, filter_In. split; [exact Hout|].
    now rewrite Hout_ar, Hout_b, Hout_k. }
  { exact Hcap. }
  rewrite Hfind.
  apply find_weakest in Hfind as (Hout' & Hpure & Hcap').
  apply andb_prop in Hpure as [Hpure Hk']. apply andb_prop in Hpure as [Har' Hb'].
  apply negb_true_iff in Har', Hb', Hk'.
  apply best_In in Hbest as [Hbest_in Hbest_ar].
  pose proof (swap_split_team df_team Hnd xi0 rem0 out' best Hs Hout' Hbest_in) as Hs1.
  set (xi1 := swap_xi xi0 out' best) in *.
  set (rem1 := swap_remaining rem0 out' best) in *.
  assert (count is_allrounder xi1 = 2) as Har1.
  { unfold xi1. rewrite (swap_xi_count df_team Hnd _ xi0 rem0 out' best Hs Hout').
    rewrite Har, Har', Hbest_ar. reflexivity. }
  assert (count is_bowler_spec xi1 = MIN_SPECIAL_BOWLERS) as Hb1.
  { unfold xi1. rewrite (swap_xi_count df_team Hnd _ xi0 rem0 out' best Hs Hout').
    rewrite Hb, Hb', (allrounder_not_bowler best Hbest_ar). reflexivity. }
  (* the keeper step finds a keeper already there *)
  assert (ensure_keeper max_overseas df_team xi1 rem1 = (xi1, rem1)) as Hkeep.
  { unfold ensure_keeper. cbn [keepers _recompute_counts].
    destruct (count is_keeper xi1 =? 0) eqn:Ek; [|reflexivity].
    destruct (by_score_desc (filter is_keeper df_team)) as [|k t'] eqn:Ebk;
      [reflexivity|].
    exfalso. apply Z.eqb_eq in Ek.
    pose proof (Hkeeper k t' eq_refl) as Hk_in.
    apply best_In in Ebk as [_ Hk_keeper].
    pose proof (swap_xi_count df_team Hnd is_keeper xi0 rem0 out' best Hs Hout') as Hc.
    fold xi1 in Hc. rewrite Hk' in Hc.
    pose proof (count_pos_In is_keeper xi0 k Hk_in Hk_keeper).
    destruct (is_keeper best); simpl in Hc; lia. }
  cbn [add_allrounders]. fold xi1 rem1. rewrite Hkeep.
  unfold by_score_desc.
  rewrite !(count_perm _ _ _ (sort_values_perm _ final_score false xi1)).
  rewrite Har1, Hb1. unfold MIN_ALLROUNDERS_IF_4. split; [lia|reflexivity].
Qed.

(** *** The overseas count of the seed *)

Lemma count_add_name (f : PlayerRow -> bool) (df : list PlayerRow)
    (names : list string) (row : PlayerRow) :
  NoDup (map Player df) -> In row df ->
  name_in (Player row) names = false ->
  count f (filter (fun p => name_in (Player p) (names ++ [Player row])%list) df)
  = count f (filter (fun p => name_in (Player p) names) df) + Z.b2z (f row).
Proof.
  intros Hnd Hin Hnew.
  assert (forall p, name_in (Player p) (names ++ [Player row])%list
                    = name_in (Player p) names
                      || String.eqb (Player p) (Player row)) as Hsplit.
  { intros p. unfold name_in. rewrite existsb_app. simpl.
    now rewrite orb_false_r. }
  induction df as [|p df IH]; [destruct Hin|].
  simpl in Hnd. inversion Hnd as [|n ns Hp Hdf]; subst.
  cbn [filter]. rewrite Hsplit.
  destruct Hin as [->|Hin].
  - rewrite Hnew, String.eqb_refl. simpl. rewrite count_cons.
    rewrite (filter_ext_In
               (fun p => name_in (Player p) (names ++ [Player row])%list)
               (fun p => name_in (Player p) names)); [lia|].
    intros q Hq. rewrite Hsplit.
    replace (String.eqb (Player q) (Player row)) with false;
      [apply orb_false_r|].
    symmetry. apply String.eqb_neq. intros E. apply Hp. rewrite <- E.
    now apply in_map.
  - replace (String.eqb (Player p) (Player row)) with false.
    + rewrite orb_false_r.
      destruct (name_in (Player p) names); rewrite ?count_cons, IH by assumption;
        lia.
    + symmetry. apply String.eqb_neq. intros E. apply Hp. rewrite E.
      now apply in_map.
Qed.

Lemma count_no_names (f : PlayerRow -> bool) (df : list PlayerRow) :
  count f (filter (fun p => name_in (Player p) []) df) = 0.
Proof. induction df as [|p df IH]; [reflexivity|exact IH]. Qed.

Lemma fill_by_score_counts (df rows : list PlayerRow) :
  NoDup (map Player df) -> (forall r, In r rows -> In r df) ->
  forall names oc,
    oc = count is_overseas (filter (fun p => name_in (Player p) names) df) ->
    let r := fill_by_score max_overseas rows names oc in
    snd r = count is_overseas (filter (fun p => name_in (Player p) (fst r)) df)
    /\ snd r <= Z.max oc max_overseas.
Proof.
  intros Hnd. induction rows as [|row rest IH]; intros Hsub names oc Hoc; simpl.
  - split; [exact Hoc|lia].
  - assert (forall r, In r rest -> In r df) as Hrest
      by (intros; apply Hsub; now right).
    destruct (11 <=? len names); [simpl; split; [exact Hoc|lia]|].
    destruct (name_in (Player row) names) eqn:Ename; [now apply IH|].
    destruct (is_overseas row && (max_overseas <=? oc)) eqn:Eskip;
      [now apply IH|].
    destruct (IH Hrest (names ++ [Player row])%list
                (if is_overseas row then oc + 1 else oc)) as [Hc Hle].
    + rewrite count_add_name by (auto with datatypes).
      rewrite <- Hoc. destruct (is_overseas row); simpl; lia.
    + split; [exact Hc|].
      destruct (is_overseas row); simpl in Eskip; [|exact Hle].
      apply Z.leb_gt in Eskip. lia.
Qed.

Lemma lock_keeper_nonneg (df_team : list PlayerRow) :
  0 <= snd (lock_keeper df_team).
Proof.
  unfold lock_keeper.
  destruct (by_score_desc (filter is_keeper df_team)) as [|k t]; simpl; [lia|].
  destruct (is_overseas k); lia.
Qed.

Lemma seed_overseas (df_team : list PlayerRow) :
  NoDup (map Player df_team) ->
  count is_overseas (fst (seed max_overseas df_team))
  <= Z.max (snd (lock_keeper df_team)) max_overseas.
Proof.
  intros Hnd. unfold seed.
  assert (snd (lock_keeper df_team)
          = count is_overseas
              (filter (fun p => name_in (Player p) (fst (lock_keeper df_team)))
                 df_team)) as Hlock.
  { unfold lock_keeper.
    destruct (by_score_desc (filter is_keeper df_team)) as [|k t] eqn:Ek;
      cbn [fst snd].
    - now rewrite count_no_names.
    - apply best_In in Ek as [Hk _].
      pose proof (count_add_name is_overseas df_team [] k Hnd Hk eq_refl) as H.
      change ([] ++ [Player k])%list with [Player k] in H.
      rewrite H, count_no_names. destruct (is_overseas k); reflexivity. }
  destruct (lock_keeper df_team) as [names0 oc0]. simpl in *.
  pose proof (fill_by_score_counts df_team (by_score_desc df_team) Hnd
                (fun r => proj1 (by_score_desc_In df_team r)) names0 oc0 Hlock)
    as [Hc Hle].
  destruct (fill_by_score _ _ _ _) as [selected_names oc]. simpl in *.
  unfold by_score_desc at 1.
  rewrite (count_perm _ _ _ (sort_values_perm _ final_score false _)).
  now rewrite <- Hc.
Qed.

(** The overseas cap of [select_starting_xi]: it holds unless the locked
    keeper alone is already above it. *)
Lemma select_starting_xi_overseas_cap (df_team : list PlayerRow)
    (pitch_type : string) :
  NoDup (map Player df_team) ->
  snd (lock_keeper df_team) <= max_overseas ->
  count is_overseas (fst (select_starting_xi df_team pitch_type max_overseas))
  <= max_overseas.
Proof.
  intros Hnd Hlock. unfold select_starting_xi.
  pose proof (seed_overseas df_team Hnd) as Hseed.
  pose proof (seed_split df_team) as Hs.
  destruct df_team as [|p df] eqn:Edf.
  { pose proof (lock_keeper_nonneg []). simpl. unfold count, len. simpl. lia. }
  rewrite <- Edf in *.
  destruct (seed max_overseas df_team) as [xi_df remaining]. simpl in *.
  destruct xi_df as [|q xi] eqn:Exi; [simpl; lia|]. rewrite <- Exi in *.
  simpl. apply repair_capped; [exact Hnd|exact Hs|lia].
Qed.

(** The lock of the top keeper looks at no cap: an overseas top keeper is
    in the seeded XI whatever [max_overseas] is. *)
Lemma seed_locks_overseas_keeper (df_team t : list PlayerRow) (k : PlayerRow) :
  by_score_desc (filter is_keeper df_team) = k :: t ->
  is_overseas k = true ->
  1 <= count is_overseas (fst (seed max_overseas df_team)).
Proof.
  intros Hk Hov. apply count_pos_In with (x := k); [|exact Hov].
  now apply seed_has_top_keeper with (t := t).
Qed.

(** An empty team frame is returned as it is, with no impact player. *)
Lemma select_starting_xi_empty_team (pitch_type : string) :
  select_starting_xi [] pitch_type max_overseas = ([], None).
Proof. reflexivity. Qed.

End Seed.
End StartingXIFacts.

(** * [select_starting_xi] on the sample frames *)

Module StartingXIExamples.
Import StartingXI StartingXISamples StartingXIFacts.
Local Open Scope string_scope.
Local Open Scope Z_scope.

Lemma distinctb_NoDup (names : list string) :
  distinctb names = true -> NoDup names.
Proof.
  induction names as [|n rest IH]; simpl; intros H; [constructor|].
  apply andb_prop in H as [Hn Hrest]. constructor; [|now apply IH].
  intros Hin. apply name_in_In in Hin. rewrite Hin in Hn. discriminate.
Qed.

(** C1 fails on the code: with [max_overseas = 0] the overseas keeper is
    locked into the XI without a look at the cap, no repair applies, and the
    XI returned has one overseas player. *)
Theorem keeper_lock_ignores_cap :
  fst (select_starting_xi keeper_abroad "balanced" 0)
  = [de_kock; rahane; chahar]
  /\ count is_overseas (fst (select_starting_xi keeper_abroad "balanced" 0)) = 1.
Proof. split; reflexivity. Qed.

(** C8, as stated, fails: the bench allrounder [bench_home] could replace
    the weakest pure batter within the cap, but the code tries only
    [bench_abroad], the best one, and the XI keeps a single allrounder. *)
Lemma eligible_bench_allrounder_not_tried :
  seed 4 team_blocked = (xi_core, [bench_abroad; bench_home])
  /\ count is_bowler_spec xi_core = 4
  /\ count is_allrounder xi_core = 1
  /\ is_allrounder bench_home = true
  /\ hd_error (by_score_asc
                 (filter (fun p => negb (is_allrounder p)
                                   && negb (is_bowler_spec p)
                                   && negb (is_keeper p)) xi_core))
     = Some weakest_batter
  /\ keeps_cap 4 (count is_overseas xi_core) weakest_batter bench_home = true
  /\ count is_allrounder (fst (select_starting_xi team_blocked "balanced" 4)) = 1
  /\ count is_bowler_spec (fst (select_starting_xi team_blocked "balanced" 4)) = 4.
Proof. repeat split; reflexivity. Qed.

Lemma best_bench_allrounder_swapped_in_witness :
  2 <= count is_allrounder (fst (select_starting_xi team_open "balanced" 4))
  /\ count is_bowler_spec (fst (select_starting_xi team_open "balanced" 4)) = 4.
Proof.
  apply (best_bench_allrounder_swapped_in 4 team_open xi_core [bench_home]
           "balanced" bench_home weakest_batter []).
  - apply distinctb_NoDup. reflexivity.
  - reflexivity.
  - reflexivity.
  - reflexivity.
  - reflexivity.
  - simpl. tauto.
  - reflexivity.
  - reflexivity.
  - reflexivity.
  - reflexivity.
Defined.

End StartingXIExamples.

(** * The price ensemble *)

Module PriceModelFacts.
Import PriceModel.

(** C9: every row keeps its place and gets as [predicted_price] the equal
    mix of the two predictions taken back from log space, raised to the
    row's [base_price] (0 where it is missing); so a present [base_price]
    is never above the predicted price. *)
Theorem predict_prices_floor (features : Type)
    (lgbm_pipeline_predict knn_pipeline_predict : features -> Q)
    (expm1 : Q -> Q) (master_df : list (MasterRow features)) :
  let predicted :=
    predict_prices lgbm_pipeline_predict knn_pipeline_predict expm1 master_df in
  map master predicted = master_df
  /\ Forall
       (fun pr =>
          predicted_price pr
          = Qmax ((1 # 2) * expm1 (lgbm_pipeline_predict (X (master pr)))
                  + (1 # 2) * expm1 (knn_pipeline_predict (X (master pr))))%Q
              (fillna 0 (base_price (master pr)))
          /\ forall b, base_price (master pr) = Some b ->
                       (b <= predicted_price pr)%Q)
       predicted.
Proof.
  simpl. unfold predict_prices. split.
  - rewrite map_map. simpl. apply map_id.
  - apply Forall_forall. intros pr Hin.
    apply in_map_iff in Hin as (r & <- & _). simpl. split; [reflexivity|].
    intros b Hb. unfold price_ensemble. rewrite Hb. simpl.
    apply Q.le_max_r.
Qed.

End PriceModelFacts.

(** * Both selectors *)

Section Rosters.

Context {sorter : SortValues}.


End Rosters.


(** * More about [select_squad] *)

Module SquadProperties.
Import Auction AuctionSpec AuctionFacts.
Local Open Scope string_scope.
Local Open Scope Z_scope.

Section Phases.

Context {sorter : SortValues}.
Variable total_purse : float.
Variables squad_size max_overseas min_overseas : Z.

#[local] Abbreviation phase1 := (phase1 total_purse squad_size max_overseas min_overseas).
#[local] Abbreviation may_add := (may_add total_purse squad_size).
#[local] Abbreviation phase2 := (phase2 total_purse squad_size).
#[local] Abbreviation phase3 := (phase3 total_purse squad_size).
#[local] Abbreviation run_phases := (run_phases total_purse squad_size max_overseas min_overseas).

(** Phase 1 stops at the floor as well as at the cap. *)
Lemma phase1_count (rows : list Row) :
  (forall r, In r rows -> is_overseas r = true) ->
  forall st,
    count_overseas (selected_rows st) = overseas_count st ->
    overseas_count st <= Z.max 0 (Z.min min_overseas max_overseas) ->
    count_overseas (selected_rows (phase1 rows st))
    = overseas_count (phase1 rows st)
    /\ overseas_count st <= overseas_count (phase1 rows st)
    /\ overseas_count (phase1 rows st)
       <= Z.max 0 (Z.min min_overseas max_overseas).
Proof.
  induction rows as [|row rest IH]; intros Hov st Hc Hle; simpl.
  - repeat split; [exact Hc|lia|exact Hle].
  - destruct (min_overseas <=? overseas_count st) eqn:Emin;
      [repeat split; [exact Hc|lia|exact Hle]|].
    apply Z.leb_gt in Emin.
    assert (forall r, In r rest -> is_overseas r = true) as Hrest
      by (intros; apply Hov; now right).
    destruct (can_afford total_purse (spent st) (predicted_price row)
              && (len (selected_rows st) <? squad_size)
              && (overseas_count st <? max_overseas)) eqn:Eg;
      [|now apply IH].
    apply andb_prop in Eg as [_ Emax]. apply Z.ltb_lt in Emax.
    destruct (IH Hrest (add_overseas row st)) as (H1 & H2 & H3); simpl.
    + rewrite count_overseas_snoc, (Hov row) by now left. lia.
    + lia.
    + simpl in H2. repeat split; [exact H1|lia|exact H3].
Qed.

Lemma run_phases_overseas_floor (cands : list Row) (reqs : list (string * Z)) :
  count_overseas (selected_rows (run_phases cands reqs))
  <= Z.max 0 (Z.min min_overseas max_overseas).
Proof.
  unfold Auction.run_phases.
  set (bound := Z.max 0 (Z.min min_overseas max_overseas)).
  assert (forall row st, is_indian row = true ->
            count_overseas (selected_rows st) <= bound ->
            count_overseas (selected_rows (add_domestic row st)) <= bound)
    as Hdom.
  { intros row st Hi Hle. simpl.
    rewrite count_overseas_snoc, (indian_not_overseas _ Hi). lia. }
  apply phase3_invariant
    with (I := fun st => count_overseas (selected_rows st) <= bound).
  { intros row st Hin Hle _. apply filter_In in Hin as [_ Hi]. now apply Hdom. }
  apply phase2_invariant
    with (I := fun st => count_overseas (selected_rows st) <= bound).
  { intros row st _ Hi Hle _. now apply Hdom. }
  simpl.
  destruct (phase1_count (filter is_overseas cands)) with (st := init)
    as (H1 & _ & H3).
  - intros r Hr. now apply filter_In in Hr.
  - reflexivity.
  - simpl. lia.
  - rewrite H1. exact H3.
Qed.

(** No phase goes beyond the squad size. *)
Lemma run_phases_size (cands : list Row) (reqs : list (string * Z)) :
  len (selected_rows (run_phases cands reqs)) <= Z.max 0 squad_size.
Proof.
  apply run_phases_invariant
    with (I1 := fun st => len (selected_rows st) <= Z.max 0 squad_size)
         (I2 := fun st => len (selected_rows st) <= Z.max 0 squad_size).
  - unfold len. simpl. lia.
  - intros row st _ _ Hle _ Hlen _. simpl. rewrite len_app.
    unfold len at 2. simpl. lia.
  - intros st Hle. exact Hle.
  - intros row st _ _ Hle Hm. unfold Auction.may_add in Hm.
    apply andb_prop in Hm as [_ Hlen]. apply Z.ltb_lt in Hlen.
    simpl. rewrite len_app. unfold len at 2. simpl. lia.
Qed.

(** The counts of [role_requirements] are not read. *)
Lemma phase2_roles_only (cands : list Row) (reqs : list (string * Z)) :
  forall reqs' st,
    map fst reqs = map fst reqs' ->
    phase2 cands reqs st = phase2 cands reqs' st.
Proof.
  induction reqs as [|[rl needed] more IH]; intros [|[rl' needed'] more'] st H;
    try discriminate; [reflexivity|].
  simpl in H. injection H as <- Hmore. simpl.
  destruct (full squad_size _); [reflexivity|]. now apply IH.
Qed.

(** With nothing spent and nothing selected, phase 1 takes the first
    overseas candidate that the purse can pay. *)
Lemma phase1_takes_affordable (rows : list Row) (r : Row) :
  1 <= min_overseas -> 1 <= max_overseas -> 1 <= squad_size ->
  (forall x, In x rows -> is_overseas x = true) ->
  In r rows ->
  can_afford total_purse (Some 0%Q) (predicted_price r) = true ->
  1 <= overseas_count (phase1 rows init).
Proof.
  intros Hmin Hmax Hsize Hov Hin Hr.
  induction rows as [|row rest IH]; [destruct Hin|]. simpl.
  replace (min_overseas <=? 0) with false by (symmetry; apply Z.leb_gt; lia).
  replace (len (@nil Row) <? squad_size) with true
    by (symmetry; apply Z.ltb_lt; unfold len; simpl; lia).
  replace (0 <? max_overseas) with true by (symmetry; apply Z.ltb_lt; lia).
  rewrite !andb_true_r.
  assert (forall x, In x rest -> is_overseas x = true) as Hrest
    by (intros; apply Hov; now right).
  destruct (can_afford total_purse (Some 0%Q) (predicted_price row)) eqn:Ea.
  - destruct (phase1_count rest Hrest (add_overseas row init))
      as (_ & H & _); simpl.
    + unfold count_overseas. simpl. rewrite (Hov row) by now left. reflexivity.
    + lia.
    + simpl in H. exact H.
  - destruct Hin as [->|Hin]; [congruence|]. now apply IH.
Qed.

Lemma phase1_takes_none (rows : list Row) :
  (forall x, In x rows ->
     can_afford total_purse (Some 0%Q) (predicted_price x) = false) ->
  phase1 rows init = init.
Proof.
  induction rows as [|row rest IH]; intros Hnone; simpl; [reflexivity|].
  destruct (min_overseas <=? 0); [reflexivity|].
  rewrite (Hnone row) by now left. simpl.
  apply IH. intros; apply Hnone; now right.
Qed.

Lemma can_afford_more (s s' : Q) (price : float) :
  (s <= s')%Q ->
  can_afford total_purse (Some s) price = false ->
  can_afford total_purse (Some s') price = false.
Proof.
  unfold can_afford. destruct price as [p|], total_purse as [P|]; simpl; auto.
  intros Hle H. destruct (Qle_bool (s' + p) P) eqn:E; [|reflexivity].
  apply Qle_bool_iff in E.
  assert (Qle_bool (s + p) P = true) by (apply Qle_bool_iff; lra).
  congruence.
Qed.

Lemma may_add_spends (row : Row) (st : state) (s : Q) :
  priced [row] -> spent st = Some s -> may_add row st = true ->
  exists s', spent (add_domestic row st) = Some s' /\ (s <= s')%Q.
Proof.
  intros Hp Hs Hm. unfold Auction.may_add in Hm.
  apply andb_prop in Hm as [Hm _]. apply andb_prop in Hm as [_ Ha].
  unfold can_afford in Ha. rewrite Hs in Ha.
  destruct (predicted_price row) as [p|] eqn:Ep; [|discriminate].
  exists (s + p)%Q. simpl. rewrite Hs, Ep. split; [reflexivity|].
  assert (0 <= p)%Q by (apply (Hp row p); [now left|exact Ep]). lra.
Qed.

Lemma phase3_grows (rows : list Row) :
  priced rows ->
  forall st s,
    spent st = Some s ->
    exists s',
      spent (phase3 rows st) = Some s' /\ (s <= s')%Q
      /\ incl (selected_keys st) (selected_keys (phase3 rows st)).
Proof.
  induction rows as [|row rest IH]; intros Hp st s Hs; simpl.
  - exists s. repeat split; [exact Hs|lra|apply incl_refl].
  - assert (priced rest) as Hrest
      by (intros r p Hr; apply Hp; now right).
    assert (priced [row]) as Hrow
      by (intros r p [<-|[]]; apply Hp; now left).
    destruct (may_add row st) eqn:Em.
    + destruct (may_add_spends row st s Hrow Hs Em) as (s1 & Hs1 & Hle1).
      destruct (full squad_size (add_domestic row st)).
      * exists s1. repeat split; [exact Hs1|exact Hle1|].
        simpl. apply incl_tl, incl_refl.
      * destruct (IH Hrest (add_domestic row st) s1 Hs1) as (s' & H1 & H2 & H3).
        exists s'. repeat split; [exact H1|lra|].
        eapply incl_tran; [|exact H3]. simpl. apply incl_tl, incl_refl.
    + destruct (full squad_size st).
      * exists s. repeat split; [exact Hs|lra|apply incl_refl].
      * now apply IH.
Qed.

(** When the filler loop ends with room left, every row it scanned is
    selected or beyond what is left of the purse. *)
Lemma phase3_exhausts (rows : list Row) :
  priced rows ->
  forall st s,
    spent st = Some s ->
    full squad_size (phase3 rows st) = false ->
    forall r, In r rows ->
      In (row_key r) (selected_keys (phase3 rows st))
      \/ can_afford total_purse (spent (phase3 rows st)) (predicted_price r)
         = false.
Proof.
  induction rows as [|row rest IH]; intros Hp st s Hs Hroom r Hin;
    [destruct Hin|].
  assert (priced rest) as Hrest by (intros x p Hx; apply Hp; now right).
  assert (priced [row]) as Hrow by (intros x p [<-|[]]; apply Hp; now left).
  simpl in *.
  destruct (may_add row st) eqn:Em.
  - destruct (may_add_spends row st s Hrow Hs Em) as (s1 & Hs1 & Hle1).
    destruct (full squad_size (add_domestic row st)) eqn:Ef; [congruence|].
    destruct Hin as [<-|Hin]; [|now apply (IH Hrest _ s1)].
    left. destruct (phase3_grows rest Hrest (add_domestic row st) s1 Hs1)
      as (_ & _ & _ & Hincl).
    apply Hincl. simpl. now left.
  - destruct (full squad_size st) eqn:Ef; [congruence|].
    destruct Hin as [<-|Hin]; [|now apply (IH Hrest _ s)].
    destruct (phase3_grows rest Hrest st s Hs) as (s' & Hs' & Hle & Hincl).
    unfold Auction.may_add in Em.
    apply andb_false_iff in Em as [Em|Elen].
    + apply andb_false_iff in Em as [Ekey|Ea].
      * left. apply Hincl. apply negb_false_iff in Ekey.
        now apply key_in_In.
      * right. rewrite Hs'. rewrite Hs in Ea. now apply can_afford_more with s.
    + unfold full in Ef. apply Z.ltb_ge in Elen. apply Z.leb_gt in Ef. lia.
Qed.

Lemma can_afford_eq (s s' : Q) (price : float) :
  (s == s')%Q ->
  can_afford total_purse (Some s) price = can_afford total_purse (Some s') price.
Proof.
  intros E. unfold can_afford.
  destruct price as [p|], total_purse as [P|]; simpl; auto.
  destruct (Qle_bool (s + p) P) eqn:E1, (Qle_bool (s' + p) P) eqn:E2; auto.
  - apply Qle_bool_iff in E1.
    assert (Qle_bool (s' + p) P = true) by (apply Qle_bool_iff; lra). congruence.
  - apply Qle_bool_iff in E2.
    assert (Qle_bool (s + p) P = true) by (apply Qle_bool_iff; lra). congruence.
Qed.

Lemma can_afford_empty (price : float) :
  can_afford total_purse (Some 0%Q) price = fle price total_purse.
Proof.
  unfold can_afford. destruct price as [p|], total_purse as [P|]; simpl; auto.
  destruct (Qle_bool (0 + p) P) eqn:E1, (Qle_bool p P) eqn:E2; auto.
  - apply Qle_bool_iff in E1.
    assert (Qle_bool p P = true) by (apply Qle_bool_iff; lra). congruence.
  - apply Qle_bool_iff in E2.
    assert (Qle_bool (0 + p) P = true) by (apply Qle_bool_iff; lra). congruence.
Qed.

Lemma books_add (row : Row) (st : state) :
  (exists s, spent st = Some s /\ (sum_price (selected_rows st) == s)%Q) ->
  can_afford total_purse (spent st) (predicted_price row) = true ->
  exists s,
    fadd (spent st) (predicted_price row) = Some s
    /\ (sum_price (selected_rows st ++ [row]) == s)%Q.
Proof.
  intros (s & Hs & Hsum) Ha. unfold can_afford in Ha. rewrite Hs in *.
  destruct (predicted_price row) as [p|] eqn:Ep; [|discriminate].
  exists (s + p)%Q. split; [reflexivity|].
  rewrite sum_price_app, Hsum. simpl. rewrite Ep. simpl. lra.
Qed.

Lemma books_add_domestic (row : Row) (st : state) :
  books st -> may_add row st = true -> books (add_domestic row st).
Proof.
  intros [Hs Hk] Hm. unfold Auction.may_add in Hm.
  apply andb_prop in Hm as [Hm _]. apply andb_prop in Hm as [_ Ha].
  split; simpl.
  - now apply books_add.
  - intros k [<-|Hin]; rewrite map_app; apply in_or_app.
    + right. now left.
    + left. now apply Hk.
Qed.

Lemma books_before_filler (cands : list Row) (reqs : list (string * Z)) :
  books (phase2 cands reqs
           (track_keys (phase1 (filter is_overseas cands) init))).
Proof.
  apply phase2_invariant; [intros; now apply books_add_domestic|].
  split; simpl; [|apply incl_refl].
  apply phase1_invariant
    with (I := fun st => exists s, spent st = Some s
                                   /\ (sum_price (selected_rows st) == s)%Q).
  - intros row st _ Hst Ha _ _. simpl. now apply books_add.
  - exists 0%Q. split; reflexivity.
Qed.

(** Once a row is selected, what is spent is within the purse, whatever
    the purse. *)
Lemma run_phases_spent (cands : list Row) (reqs : list (string * Z)) :
  exists s,
    (sum_price (selected_rows (run_phases cands reqs)) == s)%Q
    /\ (selected_rows (run_phases cands reqs) = []
        \/ fle (Some s) total_purse = true).
Proof.
  set (J := fun st : state =>
              exists s, spent st = Some s
                        /\ (sum_price (selected_rows st) == s)%Q
                        /\ (selected_rows st = []
                            \/ fle (Some s) total_purse = true)).
  assert (forall row st keys, J st ->
            can_afford total_purse (spent st) (predicted_price row) = true ->
            forall oc,
              J {| selected_rows := selected_rows st ++ [row];
                   spent := fadd (spent st) (predicted_price row);
                   overseas_count := oc; selected_keys := keys |}) as Hadd.
  { intros row st keys (s & Hs & Hsum & _) Ha oc.
    destruct (books_add row st) as (s' & Hs' & Hsum'); [eauto|exact Ha|].
    exists s'. simpl. split; [exact Hs'|]. split; [exact Hsum'|]. right.
    unfold can_afford in Ha. now rewrite Hs' in Ha. }
  enough (J (run_phases cands reqs)) as (s & _ & Hsum & Hle) by eauto.
  apply run_phases_invariant with (I1 := J).
  - exists 0%Q. simpl. split; [reflexivity|]. split; [reflexivity|now left].
  - intros row st _ _ HJ Ha _ _. now apply Hadd.
  - intros st (s & Hs & Hsum & Hle). exists s. auto.
  - intros row st _ _ HJ Hm. apply Hadd; [exact HJ|].
    unfold Auction.may_add in Hm.
    apply andb_prop in Hm as [Hm _]. now apply andb_prop in Hm as [_ Hm].
Qed.

End Phases.

(** ** The squad returned *)

Section Squad.

Context {sorter : SortValues}.
Variable df : list Row.
Variable yr : Z.
Variable total_purse : float.
Variables squad_size max_overseas min_overseas : Z.
Variable role_requirements : option (list (string * Z)).

#[local] Abbreviation squad :=
  (select_squad df yr total_purse squad_size max_overseas min_overseas
     role_requirements).
#[local] Abbreviation final_state :=
  (run_phases total_purse squad_size max_overseas min_overseas
     (candidates_of df yr) (requirements_or_default role_requirements)).

Lemma squad_Ok (roster : list Row) :
  squad = Ok roster ->
  Permutation roster (selected_rows final_state)
  /\ selected_rows final_state <> [].
Proof.
  intros H. split; [now apply select_squad_Ok in H|].
  unfold select_squad in H.
  destruct (selected_rows final_state); [discriminate|discriminate].
Qed.

Lemma len_perm {A : Type} (l l' : list A) : Permutation l l' -> len l = len l'.
Proof. intros H. unfold len. now rewrite (Permutation_length H). Qed.

Lemma count_overseas_perm (l l' : list Row) :
  Permutation l l' -> count_overseas l = count_overseas l'.
Proof.
  intros H. unfold count_overseas. apply len_perm. now apply Permutation_filter.
Qed.

(** X1: a squad that comes back has at least one player and at most
    [squad_size]. *)
Theorem select_squad_size (roster : list Row) :
  squad = Ok roster -> 1 <= len roster <= squad_size.
Proof.
  intros Hok. destruct (squad_Ok roster Hok) as [Hperm Hne].
  rewrite (len_perm _ _ Hperm).
  pose proof (run_phases_size total_purse squad_size max_overseas min_overseas
                (candidates_of df yr)
                (requirements_or_default role_requirements)) as Hsize.
  destruct (selected_rows final_state) as [|r rows]; [congruence|].
  unfold len in *. cbn [List.length] in *. lia.
Qed.

(** X2: the overseas players of the squad are at most [min_overseas] and at
    most [max_overseas]: the floor of phase 1 is also where it stops. *)
Theorem select_squad_overseas_floor (roster : list Row) :
  squad = Ok roster ->
  count_overseas roster <= Z.max 0 (Z.min min_overseas max_overseas).
Proof.
  intros Hok. destruct (squad_Ok roster Hok) as [Hperm _].
  rewrite (count_overseas_perm _ _ Hperm). apply run_phases_overseas_floor.
Qed.

(** X3: every player of the squad is a row of the frame, of the year asked
    for, predicted SOLD, with a score and a price. *)
Theorem select_squad_from_pool (roster : list Row) (r : Row) :
  squad = Ok roster -> In r roster ->
  In r df /\ year r = yr /\ predicted_auction_outcome r = "SOLD"
  /\ notna (efficiency_score r) = true /\ notna (predicted_price r) = true.
Proof.
  intros Hok Hin. destruct (squad_Ok roster Hok) as [Hperm _].
  apply (Permutation_in _ Hperm) in Hin.
  assert (Forall (fun r => In r (candidates_of df yr)
                           /\ notna (predicted_price r) = true)
            (selected_rows final_state)) as Hall.
  { apply run_phases_selected. intros row spent0 Hrow _ Ha. split; [exact Hrow|].
    destruct (predicted_price row); [reflexivity|].
    now rewrite can_afford_nan in Ha. }
  rewrite Forall_forall in Hall. destruct (Hall r Hin) as [Hc Hp].
  apply candidates_of_In in Hc as [Hdf He]. unfold eligible in He.
  apply andb_prop in He as [He Hs]. apply andb_prop in He as [Hy Ho].
  apply Z.eqb_eq in Hy. apply String.eqb_eq in Ho. auto.
Qed.

(** X4: the minimum counts of [role_requirements] are never read; only the
    roles and their order matter. *)
Theorem select_squad_ignores_needed (reqs reqs' : list (string * Z)) :
  map fst reqs = map fst reqs' ->
  select_squad df yr total_purse squad_size max_overseas min_overseas (Some reqs)
  = select_squad df yr total_purse squad_size max_overseas min_overseas
      (Some reqs').
Proof.
  intros H. unfold select_squad, Auction.run_phases. simpl.
  now rewrite (phase2_roles_only total_purse squad_size _ reqs reqs').
Qed.

(** X5: with a floor, a cap and a size of at least 1, an eligible overseas
    row whose price the purse covers makes the call return a squad with an
    overseas player. *)
Theorem select_squad_takes_affordable_overseas (r : Row) :
  1 <= min_overseas -> 1 <= max_overseas -> 1 <= squad_size ->
  In r df -> eligible yr r = true -> is_overseas r = true ->
  fle (predicted_price r) total_purse = true ->
  exists roster, squad = Ok roster /\ 1 <= count_overseas roster.
Proof.
  intros Hmin Hmax Hsize Hdf He Hov Hfits.
  assert (1 <= count_overseas (selected_rows final_state)) as Hcount.
  { unfold Auction.run_phases.
    assert (forall row st, is_indian row = true ->
              1 <= count_overseas (selected_rows st) ->
              1 <= count_overseas (selected_rows (add_domestic row st)))
      as Hdom.
    { intros row st Hi Hle. simpl.
      rewrite count_overseas_snoc, (indian_not_overseas _ Hi). lia. }
    apply phase3_invariant
      with (I := fun st => 1 <= count_overseas (selected_rows st)).
    { intros row st Hin Hle _. apply filter_In in Hin as [_ Hi].
      now apply Hdom. }
    apply phase2_invariant
      with (I := fun st => 1 <= count_overseas (selected_rows st)).
    { intros row st _ Hi Hle _. now apply Hdom. }
    simpl.
    assert (forall x, In x (filter is_overseas (candidates_of df yr)) ->
                      is_overseas x = true) as Hall
      by (intros x Hx; now apply filter_In in Hx).
    destruct (phase1_count total_purse squad_size max_overseas min_overseas
                _ Hall init) as (-> & _ & _); [reflexivity|simpl; lia|].
    apply phase1_takes_affordable with (r := r); auto.
    - apply filter_In. split; [|exact Hov]. apply candidates_of_In. now split.
    - now rewrite can_afford_empty. }
  unfold select_squad.
  destruct (selected_rows final_state) as [|x rows] eqn:Esel.
  - unfold count_overseas, len in Hcount. simpl in Hcount. lia.
  - eexists. split; [reflexivity|].
    unfold to_squad_df.
    rewrite (count_overseas_perm _ (x :: rows)); [exact Hcount|].
    apply sort_values_perm.
Qed.

(** X6: with a floor of 0 or less, or with no eligible overseas row that
    the purse covers, the squad has no overseas player (and that is no
    error). *)
Theorem select_squad_no_overseas (roster : list Row) :
  min_overseas <= 0
  \/ (forall r, In r df -> eligible yr r = true -> is_overseas r = true ->
                fle (predicted_price r) total_purse = false) ->
  squad = Ok roster -> count_overseas roster = 0.
Proof.
  intros Hwhy Hok. destruct (squad_Ok roster Hok) as [Hperm _].
  rewrite (count_overseas_perm _ _ Hperm).
  assert (0 <= count_overseas (selected_rows final_state))
    by (unfold count_overseas, len; lia).
  destruct Hwhy as [Hmin|Hnone].
  - pose proof (run_phases_overseas_floor total_purse squad_size max_overseas
                  min_overseas (candidates_of df yr)
                  (requirements_or_default role_requirements)). lia.
  - enough (count_overseas (selected_rows final_state) <= 0) by lia.
    unfold Auction.run_phases.
    assert (forall row st, is_indian row = true ->
              count_overseas (selected_rows st) <= 0 ->
              count_overseas (selected_rows (add_domestic row st)) <= 0)
      as Hdom.
    { intros row st Hi Hle. simpl.
      rewrite count_overseas_snoc, (indian_not_overseas _ Hi). lia. }
    apply phase3_invariant
      with (I := fun st => count_overseas (selected_rows st) <= 0).
    { intros row st Hin Hle _. apply filter_In in Hin as [_ Hi].
      now apply Hdom. }
    apply phase2_invariant
      with (I := fun st => count_overseas (selected_rows st) <= 0).
    { intros row st _ Hi Hle _. now apply Hdom. }
    rewrite phase1_takes_none; [simpl; unfold count_overseas, len; simpl; lia|].
    intros x Hx. apply filter_In in Hx as [Hx Hov].
    apply candidates_of_In in Hx as [Hdf He].
    rewrite can_afford_empty. now apply Hnone.
Qed.

(** X7: a squad size that is not positive, or a purse that is NaN, leaves
    nothing selected, and the call raises [KeyError]. *)
Theorem select_squad_nothing_to_select :
  squad_size <= 0 \/ total_purse = NaN ->
  squad = Raise (KeyError "efficiency_score").
Proof.
  intros Hwhy. unfold select_squad.
  assert (selected_rows final_state = []) as ->; [|reflexivity].
  destruct Hwhy as [Hsize|Hnan]; [now apply run_phases_no_slot|].
  assert (forall spent0 price, can_afford total_purse spent0 price = false)
    as Hnever.
  { intros spent0 price. unfold can_afford. rewrite Hnan.
    destruct (fadd spent0 price); reflexivity. }
  apply run_phases_invariant
    with (I1 := fun st => selected_rows st = [])
         (I2 := fun st => selected_rows st = []).
  - reflexivity.
  - intros row st _ _ _ Ha. now rewrite Hnever in Ha.
  - auto.
  - intros row st _ _ _ Hm. unfold Auction.may_add in Hm.
    rewrite Hnever, andb_false_r in Hm. discriminate.
Qed.


End Squad.

End SquadProperties.

Module SquadExamples.
Import Auction AuctionSamples SquadSamples SquadProperties.
Local Open Scope string_scope.
Local Open Scope Z_scope.

Lemma select_squad_size_witness : 1 <= len [quick; batter] <= 9.
Proof.
  apply (select_squad_size pool 2025 (Some 100%Q) 9 3 1 None). reflexivity.
Defined.

Lemma select_squad_overseas_floor_witness :
  count_overseas [quick; batter] <= Z.max 0 (Z.min 1 3).
Proof.
  apply (select_squad_overseas_floor pool 2025 (Some 100%Q) 9 3 1 None).
  reflexivity.
Defined.

Lemma select_squad_from_pool_witness :
  In batter pool /\ year batter = 2025
  /\ predicted_auction_outcome batter = "SOLD"
  /\ notna (efficiency_score batter) = true
  /\ notna (predicted_price batter) = true.
Proof.
  apply (select_squad_from_pool pool 2025 (Some 100%Q) 9 3 1 None
           [quick; batter]).
  - reflexivity.
  - right. left. reflexivity.
Defined.

Lemma select_squad_ignores_needed_witness :
  select_squad pool 2025 (Some 100%Q) 9 3 1 (Some [("Bowler", 1); ("Batter", 1)])
  = select_squad pool 2025 (Some 100%Q) 9 3 1
      (Some [("Bowler", 7); ("Batter", 0)]).
Proof.
  apply select_squad_ignores_needed. reflexivity.
Defined.

Lemma select_squad_takes_affordable_overseas_witness :
  exists roster,
    select_squad pool 2025 (Some 100%Q) 9 3 1 None = Ok roster
    /\ 1 <= count_overseas roster.
Proof.
  apply (select_squad_takes_affordable_overseas pool 2025 (Some 100%Q) 9 3 1
           None quick); try reflexivity; try lia.
  right. left. reflexivity.
Defined.

Lemma select_squad_no_overseas_witness : count_overseas [batter] = 0.
Proof.
  apply (select_squad_no_overseas tight_pool 2025 (Some 20%Q) 9 3 1 None).
  - right. intros r [<-|[<-|[]]] _ Hov; [discriminate Hov|reflexivity].
  - reflexivity.
Defined.

Lemma select_squad_nothing_to_select_witness :
  select_squad pool 2025 NaN 9 3 1 None = Raise (KeyError "efficiency_score").
Proof.
  apply select_squad_nothing_to_select. right. reflexivity.
Defined.


End SquadExamples.

(** * Impact and efficiency scores *)

Module ImpactFacts.
Import Impact.
Local Open Scope string_scope.
Local Open Scope Z_scope.

Lemma dropna_In {A : Type} (s : list (option A)) (a : A) :
  In a (dropna s) <-> In (Some a) s.
Proof.
  unfold dropna. rewrite in_flat_map. split.
  - intros ([x|] & Hin & Hx); simpl in Hx; [|tauto].
    destruct Hx as [->|[]]. exact Hin.
  - intros Hin. exists (Some a). split; [exact Hin|now left].
Qed.

Lemma fold_min_le (x : Q) (xs : list Q) (q : Q) :
  In q (x :: xs) -> (fold_right Qmin x xs <= q)%Q.
Proof.
  induction xs as [|y ys IH]; simpl.
  - intros [->|[]]. apply Qle_refl.
  - intros [->|[->|Hin]].
    + eapply Qle_trans; [apply Q.le_min_r|]. apply IH. now left.
    + apply Q.le_min_l.
    + eapply Qle_trans; [apply Q.le_min_r|]. apply IH. now right.
Qed.

Lemma fold_max_ge (x : Q) (xs : list Q) (q : Q) :
  In q (x :: xs) -> (q <= fold_right Qmax x xs)%Q.
Proof.
  induction xs as [|y ys IH]; simpl.
  - intros [->|[]]. apply Qle_refl.
  - intros [->|[->|Hin]].
    + eapply Qle_trans; [|apply Q.le_max_r]. apply IH. now left.
    + apply Q.le_max_l.
    + eapply Qle_trans; [|apply Q.le_max_r]. apply IH. now right.
Qed.

Lemma fold_min_In (x : Q) (xs : list Q) :
  exists q, In q (x :: xs) /\ (q == fold_right Qmin x xs)%Q.
Proof.
  induction xs as [|y ys (q & Hin & E)]; simpl.
  - exists x. split; [now left|reflexivity].
  - destruct (Q.min_spec y (fold_right Qmin x ys)) as [[_ E']|[_ E']].
    + exists y. split; [right; now left|now symmetry].
    + exists q. split; [destruct Hin as [->|Hin]; simpl; auto|].
      now rewrite E'.
Qed.

Lemma fold_max_In (x : Q) (xs : list Q) :
  exists q, In q (x :: xs) /\ (q == fold_right Qmax x xs)%Q.
Proof.
  induction xs as [|y ys (q & Hin & E)]; simpl.
  - exists x. split; [now left|reflexivity].
  - destruct (Q.max_spec y (fold_right Qmax x ys)) as [[_ E']|[_ E']].
    + exists q. split; [destruct Hin as [->|Hin]; simpl; auto|].
      now rewrite E'.
    + exists y. split; [right; now left|now symmetry].
Qed.

Lemma scale_range (lo hi q : Q) :
  (lo <= q)%Q -> (q <= hi)%Q -> (lo < hi)%Q ->
  (0 <= (q - lo) / (hi - lo) <= 1)%Q.
Proof.
  intros H1 H2 H3. split.
  - apply Qle_shift_div_l; lra.
  - apply Qle_shift_div_r; lra.
Qed.

Lemma scale_mono (lo hi a b : Q) :
  (lo < hi)%Q -> (a <= b)%Q ->
  ((a - lo) / (hi - lo) <= (b - lo) / (hi - lo))%Q.
Proof.
  intros H1 H2. unfold Qdiv. apply Qmult_le_compat_r; [lra|].
  apply Qlt_le_weak, Qinv_lt_0_compat. lra.
Qed.

(** The three cases of [minmax_normalize]. *)
Lemma minmax_normalize_cases (series : list float) :
  (dropna series = [] /\ minmax_normalize series = map (fun _ => Some 0%Q) series)
  \/ (exists lo hi,
        (forall q, In (Some q) series -> (lo <= q <= hi)%Q)
        /\ (exists a, In (Some a) series /\ (a == lo)%Q)
        /\ (exists b, In (Some b) series /\ (b == hi)%Q)
        /\ ((lo == hi)%Q
            /\ minmax_normalize series = map (fun _ => Some (1 # 2)%Q) series
            \/ (lo < hi)%Q
               /\ minmax_normalize series = map (scale lo hi) series)).
Proof.
  unfold minmax_normalize.
  destruct (dropna series) as [|x xs] eqn:E; [left; auto|right].
  exists (fold_right Qmin x xs), (fold_right Qmax x xs).
  assert (forall q, In (Some q) series -> In q (x :: xs)) as Hin
    by (intros q Hq; rewrite <- E; now apply dropna_In).
  assert (forall q, In q (x :: xs) -> In (Some q) series) as Hback
    by (intros q Hq; rewrite <- E in Hq; now apply dropna_In).
  split; [|split; [|split]].
  - intros q Hq. split; [apply fold_min_le|apply fold_max_ge]; auto.
  - destruct (fold_min_In x xs) as (a & Ha & Ea). exists a. auto.
  - destruct (fold_max_In x xs) as (b & Hb & Eb). exists b. auto.
  - destruct (Qeq_bool (fold_right Qmin x xs) (fold_right Qmax x xs)) eqn:Q.
    + left. split; [now apply Qeq_bool_iff|reflexivity].
    + right. split; [|reflexivity].
      apply Qeq_bool_neq in Q.
      assert (fold_right Qmin x xs <= fold_right Qmax x xs)%Q.
      { eapply Qle_trans; [apply (fold_min_le x xs x)|apply (fold_max_ge x xs x)];
          now left. }
      apply Qle_lteq in H. destruct H; [assumption|contradiction].
Qed.

Lemma normalized_range (series : list float) (q : Q) :
  In (Some q) (minmax_normalize series) -> (0 <= q <= 1)%Q.
Proof.
  destruct (minmax_normalize_cases series)
    as [[_ ->]|(lo & hi & Hb & _ & _ & [[_ ->]|[Hlt ->]])];
    rewrite in_map_iff; intros (v & E & Hin).
  - injection E as <-. lra.
  - injection E as <-. lra.
  - destruct v as [a|]; [|discriminate]. simpl in E. injection E as <-.
    destruct (Hb a Hin). now apply scale_range.
Qed.

(** X9: every value [minmax_normalize] returns lies in [0, 1]. *)
Theorem minmax_normalize_range (series : list float) (q : Q) :
  In (Some q) (minmax_normalize series) -> (0 <= q <= 1)%Q.
Proof. apply normalized_range. Qed.

(** X10: a column with no spread is filled, not scaled: when the values
    present are all equal, every position comes back as 0.5, and when no
    value is present, as 0.0; the positions that were NaN are filled too. *)
Theorem minmax_normalize_no_spread (series : list float) :
  (forall a b, In (Some a) series -> In (Some b) series -> (a == b)%Q) ->
  minmax_normalize series
  = map (fun _ => Some (if existsb notna series then 1 # 2 else 0)%Q) series.
Proof.
  intros Hflat.
  destruct (minmax_normalize_cases series)
    as [[E ->]|(lo & hi & Hb & (a & Ha & Ea) & (b & Hb' & Eb) & Hcase)].
  - assert (existsb notna series = false) as ->; [|reflexivity].
    destruct (existsb notna series) eqn:Ex; [|reflexivity].
    apply existsb_exists in Ex as ([q|] & Hin & Hq); [|discriminate].
    apply dropna_In in Hin. rewrite E in Hin. destruct Hin.
  - assert (existsb notna series = true) as ->
      by (apply existsb_exists; exists (Some a); auto).
    destruct Hcase as [[_ ->]|[Hlt _]]; [reflexivity|].
    pose proof (Hflat a b Ha Hb'). lra.
Qed.


(** X12: the order of the values is kept: of two positions, the one with
    the smaller value does not get the larger result. *)
Theorem minmax_normalize_monotone (series : list float) (i j : nat)
    (a b a' b' : Q) :
  nth_error series i = Some (Some a) -> nth_error series j = Some (Some b) ->
  (a <= b)%Q ->
  nth_error (minmax_normalize series) i = Some (Some a') ->
  nth_error (minmax_normalize series) j = Some (Some b') ->
  (a' <= b')%Q.
Proof.
  intros Hi Hj Hab.
  destruct (minmax_normalize_cases series)
    as [[_ ->]|(lo & hi & _ & _ & _ & [[_ ->]|[Hlt ->]])];
    rewrite !nth_error_map, Hi, Hj; simpl; intros Ha Hb;
    injection Ha as <-; injection Hb as <-; try lra.
  now apply scale_mono.
Qed.

Lemma minmax_normalize_length (series : list float) :
  List.length (minmax_normalize series) = List.length series.
Proof.
  destruct (minmax_normalize_cases series)
    as [[_ ->]|(lo & hi & _ & _ & _ & [[_ ->]|[_ ->]])]; apply length_map.
Qed.

Lemma minmax_normalize_within (series : list float) :
  Forall (within 0 1) (minmax_normalize series).
Proof.
  apply Forall_forall. intros [q|] Hin; simpl; [|exact I].
  now apply normalized_range in Hin.
Qed.

Lemma vstack3_T_In (a b c : list float) (row : list float) :
  In row (vstack3_T a b c) ->
  exists x y z, row = [x; y; z] /\ In x a /\ In y b /\ In z c.
Proof.
  unfold vstack3_T. rewrite in_map_iff. intros ([x [y z]] & <- & Hin).
  exists x, y, z. split; [reflexivity|].
  pose proof (in_combine_l _ _ _ _ Hin).
  apply in_combine_r in Hin.
  pose proof (in_combine_l _ _ _ _ Hin).
  apply in_combine_r in Hin. auto.
Qed.

Lemma sum_bounds (vs : list Q) :
  Forall (fun q => 0 <= q <= 1)%Q vs ->
  (0 <= fold_right Qplus 0 vs <= inject_Z (Z.of_nat (List.length vs)))%Q.
Proof.
  induction 1 as [|q qs Hq _ IH].
  - simpl. split; apply Qle_refl.
  - cbn [fold_right List.length]. rewrite Nat2Z.inj_succ. unfold Z.succ.
    rewrite inject_Z_plus. change (inject_Z 1) with 1%Q. lra.
Qed.

Lemma nanmean_within (row : list float) :
  Forall (within 0 1) row -> within 0 1 (nanmean row).
Proof.
  intros Hrow. unfold nanmean.
  assert (Forall (fun q => 0 <= q <= 1)%Q (dropna row)) as Hvs.
  { apply Forall_forall. intros q Hq. apply dropna_In in Hq.
    rewrite Forall_forall in Hrow. exact (Hrow _ Hq). }
  destruct (dropna row) as [|v vs]; [exact I|].
  apply sum_bounds in Hvs. set (n := List.length (v :: vs)) in *.
  assert (0 < inject_Z (Z.of_nat n))%Q as Hn.
  { change 0%Q with (inject_Z 0). rewrite <- Zlt_Qlt. unfold n. cbn [List.length]. lia. }
  unfold within. split.
  - apply Qle_shift_div_l; [exact Hn|]. lra.
  - apply Qle_shift_div_r; [exact Hn|]. lra.
Qed.

Lemma one_minus_within (col : list float) :
  Forall (within 0 1) col -> Forall (within 0 1) (map one_minus col).
Proof.
  intros H. apply Forall_map. revert H. apply Forall_impl.
  intros [q|]; simpl; [lra|auto].
Qed.

Lemma nanmean_stack_within (a b c : list float) :
  Forall (within 0 1) a -> Forall (within 0 1) b -> Forall (within 0 1) c ->
  Forall (within 0 1) (map nanmean (vstack3_T a b c)).
Proof.
  rewrite !Forall_forall. intros Ha Hb Hc v Hv.
  apply in_map_iff in Hv as (row & <- & Hrow).
  apply vstack3_T_In in Hrow as (x & y & z & -> & Hx & Hy & Hz).
  apply nanmean_within. repeat constructor; auto.
Qed.

Lemma batting_impacts_within (df : list StatsRow) :
  Forall (within 0 1) (batting_impacts df).
Proof.
  apply nanmean_stack_within; apply minmax_normalize_within.
Qed.

Lemma bowling_impacts_within (df : list StatsRow) :
  Forall (within 0 1) (bowling_impacts df).
Proof.
  apply nanmean_stack_within; try apply minmax_normalize_within.
  apply one_minus_within, minmax_normalize_within.
Qed.

Lemma scored_In (df : list StatsRow) (r : ScoredRow) :
  In r (_compute_impact_efficiency df) ->
  exists bat bowl,
    r = score_row (stats r) bat bowl /\ In (stats r) df
    /\ within 0 1 bat /\ within 0 1 bowl.
Proof.
  unfold _compute_impact_efficiency. rewrite in_map_iff.
  intros ([s [bat bowl]] & <- & Hin). exists bat, bowl.
  split; [reflexivity|]. simpl.
  split; [exact (in_combine_l _ _ _ _ Hin)|].
  apply in_combine_r in Hin.
  pose proof (batting_impacts_within df) as Hbat.
  pose proof (bowling_impacts_within df) as Hbowl.
  rewrite Forall_forall in Hbat, Hbowl.
  split; [apply Hbat; exact (in_combine_l _ _ _ _ Hin)|].
  apply Hbowl. exact (in_combine_r _ _ _ _ Hin).
Qed.

Lemma vstack3_T_length (a b c : list float) (n : nat) :
  List.length a = n -> List.length b = n -> List.length c = n ->
  List.length (vstack3_T a b c) = n.
Proof.
  intros Ha Hb Hc. unfold vstack3_T.
  rewrite length_map, !length_combine. lia.
Qed.

(** The frame keeps its rows, in their order. *)
Lemma _compute_impact_efficiency_rows (df : list StatsRow) :
  map stats (_compute_impact_efficiency df) = df.
Proof.
  unfold _compute_impact_efficiency. rewrite map_map.
  assert (List.length (combine (batting_impacts df) (bowling_impacts df))
          = List.length df) as Hlen.
  { unfold batting_impacts, bowling_impacts.
    rewrite length_combine, !length_map.
    rewrite !(vstack3_T_length _ _ _ (List.length df));
      rewrite ?length_map, ?minmax_normalize_length, ?length_map; lia. }
  revert Hlen. generalize (combine (batting_impacts df) (bowling_impacts df)).
  induction df as [|r rows IH]; intros [|[bat bowl] l] Hlen;
    try discriminate; [reflexivity|].
  simpl. f_equal. apply IH. simpl in Hlen. lia.
Qed.

(** X13: batting and bowling impact, where present, lie in [0, 1], and
    the impact score in [0, 2]. *)
Theorem impact_score_range (df : list StatsRow) :
  Forall (fun r => within 0 1 (batting_impact r)
                   /\ within 0 1 (bowling_impact r)
                   /\ within 0 2 (impact_score r))
    (_compute_impact_efficiency df).
Proof.
  apply Forall_forall. intros r Hr.
  apply scored_In in Hr as (bat & bowl & -> & _ & Hbat & Hbowl).
  simpl. split; [exact Hbat|]. split; [exact Hbowl|].
  destruct bat as [a|], bowl as [b|]; simpl in *; auto. lra.
Qed.


Lemma classify_In (thr : option float) (df : list StatsRow)
    (r : ScoredRow) (outcome : string) :
  In (r, outcome) (classify thr df) ->
  In r (_compute_impact_efficiency df)
  /\ outcome = predicted_auction_outcome thr (efficiency_score r).
Proof.
  unfold classify. rewrite in_map_iff. intros (x & [= <- <-] & Hin). auto.
Qed.

(** X15: under a positive threshold a row is SOLD exactly when its
    efficiency score is present and at least the threshold; a row without
    a score counts as 0 and is UNSOLD. *)
Theorem classify_sold_iff (t : Q) (df : list StatsRow) :
  (0 < t)%Q ->
  Forall (fun x => snd x = "SOLD"
                   <-> exists e, efficiency_score (fst x) = Some e
                                 /\ (t <= e)%Q)
    (classify (Some (Some t)) df).
Proof.
  intros Ht. apply Forall_forall. intros [r outcome] Hin.
  apply classify_In in Hin as [_ ->]. simpl.
  unfold predicted_auction_outcome, predicted_unsold_flag, flt.
  destruct (efficiency_score r) as [e|]; simpl.
  - destruct (Qle_bool t e) eqn:E; simpl.
    + apply Qle_bool_iff in E. split; [|reflexivity]. intros _. now exists e.
    + split; [discriminate|]. intros (e' & [= <-] & Hle).
      apply Qle_bool_iff in Hle. congruence.
  - destruct (Qle_bool t 0) eqn:E; simpl.
    + apply Qle_bool_iff in E. lra.
    + split; [discriminate|]. intros (e' & [=] & _).
Qed.

(** X16: without a threshold, with a NaN threshold, or with one that is
    not positive, a row without an efficiency score is SOLD. *)
Theorem classify_unscored_sold (thr : option float) (df : list StatsRow) :
  (forall t, thr = Some (Some t) -> (t <= 0)%Q) ->
  Forall (fun x => efficiency_score (fst x) = NaN -> snd x = "SOLD")
    (classify thr df).
Proof.
  intros Hthr. apply Forall_forall. intros [r outcome] Hin.
  apply classify_In in Hin as [_ ->]. simpl. intros ->.
  unfold predicted_auction_outcome, predicted_unsold_flag, flt.
  destruct thr as [[t|]|]; simpl; try reflexivity.
  assert (Qle_bool t 0 = true) as -> by (apply Qle_bool_iff; now apply Hthr).
  reflexivity.
Qed.

End ImpactFacts.

(** * Training years *)

Module TrainingYearsFacts.
Import Impact ImpactFacts.
Local Open Scope string_scope.
Local Open Scope Z_scope.

#[local] Abbreviation ascending := (StronglySorted Z.lt).

Lemma insert_year_In (y : Z) (years : list Z) (x : Z) :
  In x (insert_year y years) <-> x = y \/ In x years.
Proof.
  induction years as [|z rest IH]; simpl; [intuition|].
  destruct (y <? z) eqn:E1; [simpl; intuition|].
  destruct (y =? z) eqn:E2.
  - apply Z.eqb_eq in E2. subst. simpl. intuition.
  - simpl. rewrite IH. intuition.
Qed.

Lemma insert_year_ascending (y : Z) (years : list Z) :
  ascending years -> ascending (insert_year y years).
Proof.
  induction 1 as [|z rest Hs IH Hz]; simpl.
  - repeat constructor.
  - pose proof Hz as Hall. rewrite Forall_forall in Hz.
    destruct (y <? z) eqn:E1; [|destruct (y =? z) eqn:E2].
    + apply Z.ltb_lt in E1. constructor; [now constructor|].
      constructor; [exact E1|]. apply Forall_forall. intros x Hx.
      specialize (Hz x Hx). lia.
    + now constructor.
    + apply Z.ltb_ge in E1. apply Z.eqb_neq in E2.
      constructor; [exact IH|]. apply Forall_forall. intros x Hx.
      apply insert_year_In in Hx as [->|Hx]; [lia|now apply Hz].
Qed.

Lemma sorted_unique_In (col : list (option Z)) (y : Z) :
  In y (sorted_unique col) <-> In (Some y) col.
Proof.
  unfold sorted_unique. rewrite <- dropna_In.
  induction (dropna col) as [|z rest IH]; simpl; [tauto|].
  rewrite insert_year_In, IH. intuition.
Qed.

Lemma sorted_unique_ascending (col : list (option Z)) :
  ascending (sorted_unique col).
Proof.
  unfold sorted_unique. induction (dropna col) as [|z rest IH]; simpl.
  - constructor.
  - now apply insert_year_ascending.
Qed.

Lemma ascending_split (older newer : list Z) :
  ascending (older ++ newer)%list ->
  ascending older /\ ascending newer
  /\ forall x y, In x older -> In y newer -> x < y.
Proof.
  induction older as [|z rest IH]; simpl; intros H.
  - split; [constructor|]. split; [exact H|]. intros x y [].
  - inversion H as [|? ? Hs Hz]; subst. destruct (IH Hs) as (H1 & H2 & H3).
    rewrite Forall_forall in Hz. split; [|split; [exact H2|]].
    + constructor; [exact H1|]. apply Forall_forall. intros x Hx.
      apply Hz, in_or_app. now left.
    + intros x y [<-|Hx] Hy; [|now apply H3].
      apply Hz, in_or_app. now right.
Qed.

Lemma ascending_filter (f : Z -> bool) (years : list Z) :
  ascending years -> ascending (filter f years).
Proof.
  induction 1 as [|z rest Hs IH Hz]; simpl; [constructor|].
  destruct (f z); [|exact IH]. constructor; [exact IH|].
  rewrite Forall_forall in *. intros x Hx. apply filter_In in Hx as [Hx _].
  now apply Hz.
Qed.

(** The last of an ascending list is its largest. *)
Lemma ascending_latest (years : list Z) (latest : Z) (earlier : list Z) :
  ascending years -> rev years = latest :: earlier ->
  In latest years /\ forall y, In y years -> y <= latest.
Proof.
  intros Hs Hrev.
  assert (years = (rev earlier ++ [latest])%list) as ->.
  { rewrite <- (rev_involutive years), Hrev. reflexivity. }
  split; [apply in_or_app; right; now left|].
  destruct (ascending_split _ _ Hs) as (_ & _ & Hlt).
  intros y Hy. apply in_app_or in Hy as [Hy|[<-|[]]]; [|lia].
  specialize (Hlt y latest Hy (or_introl eq_refl)). lia.
Qed.

Lemma last_two_spec (years : list Z) :
  ascending years -> (2 <= List.length years)%nat ->
  List.length (last_two years) = 2%nat
  /\ ascending (last_two years)
  /\ (forall y, In y (last_two years) -> In y years)
  /\ (forall y, In y years ->
        In y (last_two years) \/ forall x, In x (last_two years) -> y < x).
Proof.
  intros Hs Hlen. unfold last_two.
  set (k := (List.length years - 2)%nat).
  rewrite <- (firstn_skipn k years) in Hs.
  destruct (ascending_split _ _ Hs) as (_ & Hnew & Hlt).
  split; [rewrite length_skipn; lia|]. split; [exact Hnew|]. split.
  - intros y Hy. rewrite <- (firstn_skipn k years). apply in_or_app. now right.
  - intros y Hy. rewrite <- (firstn_skipn k years) in Hy.
    apply in_app_or in Hy as [Hy|Hy]; [right|now left].
    intros x Hx. now apply Hlt.
Qed.

(** What a returned list is, in terms of the distinct years. *)
Lemma _select_training_years_Returns (col : list (option Z)) (ys : list Z) :
  _select_training_years col = Returns ys ->
  exists latest,
    In (Some latest) col
    /\ (forall y, In (Some y) col -> y <= latest)
    /\ (1 <= List.length ys <= 2)%nat
    /\ ascending ys
    /\ (forall y, In y ys -> In (Some y) col /\ y < latest)
    /\ (forall y, In (Some y) col ->
          In y ys \/ y = latest
          \/ List.length ys = 2%nat /\ forall x, In x ys -> y < x).
Proof.
  unfold _select_training_years.
  pose proof (sorted_unique_ascending col) as Hs.
  pose proof (sorted_unique_In col) as Hin.
  destruct (rev (sorted_unique col)) as [|latest earlier] eqn:Hrev;
    [discriminate|].
  destruct (ascending_latest _ _ _ Hs Hrev) as [Hlatest Hmax].
  set (past_years := filter (fun y => y <? latest) (sorted_unique col)).
  assert (ascending past_years) as Hpast by now apply ascending_filter.
  assert (forall y, In y past_years <-> In (Some y) col /\ y < latest) as Hmem.
  { intros y. unfold past_years. rewrite filter_In, Hin, Z.ltb_lt. tauto. }
  assert (forall y, In (Some y) col -> In y past_years \/ y = latest) as Hall.
  { intros y Hy. destruct (Z.eq_dec y latest) as [->|Hne]; [now right|left].
    apply Hmem. split; [exact Hy|]. apply Hin, Hmax in Hy. lia. }
  intros Hret. exists latest.
  split; [now apply Hin|]. split; [intros y Hy; now apply Hmax, Hin|].
  destruct past_years as [|a [|b rest]] eqn:Epast; [discriminate| |].
  - injection Hret as <-. split; [simpl; lia|]. split; [exact Hpast|].
    split; [intros y Hy; now apply Hmem|].
    intros y Hy. destruct (Hall y Hy); auto.
  - injection Hret as <-.
    destruct (last_two_spec (a :: b :: rest) Hpast) as (Hlen & Hasc & Hsub & Hold);
      [simpl; lia|].
    split; [lia|]. split; [exact Hasc|].
    split; [intros y Hy; now apply Hmem, Hsub|].
    intros y Hy. destruct (Hall y Hy) as [Hy' | ->]; [|auto].
    destruct (Hold y Hy'); auto.
Qed.

(** X17: the training years returned are one or two years of the column,
    ascending, all before the latest year of the column. *)
Theorem _select_training_years_past (col : list (option Z)) (ys : list Z) :
  _select_training_years col = Returns ys ->
  (1 <= List.length ys <= 2)%nat
  /\ StronglySorted Z.lt ys
  /\ exists latest,
       In (Some latest) col
       /\ (forall y, In (Some y) col -> y <= latest)
       /\ (forall y, In y ys -> In (Some y) col /\ y < latest).
Proof.
  intros H.
  apply _select_training_years_Returns in H
    as (latest & H1 & H2 & H3 & H4 & H5 & _).
  split; [exact H3|]. split; [exact H4|]. exists latest. auto.
Qed.

(** X18: they are the most recent ones: a year of the column that is not
    returned is the latest year, or two years are returned and it is
    older than both. *)
Theorem _select_training_years_recent (col : list (option Z)) (ys : list Z)
    (y : Z) :
  _select_training_years col = Returns ys ->
  In (Some y) col -> ~ In y ys ->
  (forall x, In (Some x) col -> x <= y)
  \/ List.length ys = 2%nat /\ forall x, In x ys -> y < x.
Proof.
  intros H Hy Hout.
  apply _select_training_years_Returns in H
    as (latest & _ & Hmax & _ & _ & _ & Hall).
  destruct (Hall y Hy) as [Hin|[-> |Hold]]; [contradiction|now left|now right].
Qed.

(** X19: [ValueError] is raised exactly when the column has no two
    different years (no year at all, or one year only). *)
Theorem _select_training_years_raises (col : list (option Z)) :
  (exists message, _select_training_years col = ValueError message)
  <-> forall a b, In (Some a) col -> In (Some b) col -> a = b.
Proof.
  pose proof (sorted_unique_ascending col) as Hs.
  pose proof (sorted_unique_In col) as Hin.
  split.
  - intros [message H] a b Ha Hb. unfold _select_training_years in H.
    destruct (rev (sorted_unique col)) as [|latest earlier] eqn:Hrev.
    + apply Hin in Ha. rewrite <- (rev_involutive (sorted_unique col)), Hrev in Ha.
      destruct Ha.
    + destruct (ascending_latest _ _ _ Hs Hrev) as [_ Hmax].
      set (past_years := filter (fun y => y <? latest) (sorted_unique col)) in *.
      assert (forall y, In (Some y) col -> y = latest) as Hone.
      { intros y Hy. apply Hin in Hy. pose proof (Hmax y Hy).
        destruct (Z.eq_dec y latest) as [|Hne]; [assumption|].
        assert (In y past_years) as Hp
          by (apply filter_In; split; [exact Hy|apply Z.ltb_lt; lia]).
        destruct past_years as [|p [|q rest]]; [destruct Hp|discriminate H|].
        discriminate H. }
      now rewrite (Hone a Ha), (Hone b Hb).
  - intros Hflat. unfold _select_training_years.
    destruct (sorted_unique col) as [|a [|b rest]] eqn:E.
    + simpl. eauto.
    + simpl. rewrite Z.ltb_irrefl. eauto.
    + exfalso.
      assert (a = b) as ->
        by (apply Hflat; apply Hin; simpl; auto).
      inversion Hs as [|? ? _ Hlt]; subst.
      inversion Hlt as [|? ? Hab _]; subst. lia.
Qed.

End TrainingYearsFacts.

(** * Overs as balls *)

Module FeaturesFacts.
Import Features.
Local Open Scope Z_scope.

Lemma rint_integer (n : Z) : rint (inject_Z n) = n.
Proof.
  unfold rint. rewrite Qfloor_Z.
  assert ((inject_Z n - inject_Z n ?= 1 # 2)%Q = Lt) as ->; [|reflexivity].
  rewrite <- Qlt_alt. lra.
Qed.

Lemma rint_comp (x y : Q) : (x == y)%Q -> rint x = rint y.
Proof.
  intros E. unfold rint. rewrite (Qfloor_comp _ _ E).
  assert ((x - inject_Z (Qfloor y) ?= 1 # 2)%Q
          = (y - inject_Z (Qfloor y) ?= 1 # 2)%Q) as ->; [|reflexivity].
  apply Qcompare_comp; [|reflexivity]. now rewrite E.
Qed.


End FeaturesFacts.

Module ImpactExamples.
Import Impact Features ImpactSamples ImpactFacts TrainingYearsFacts FeaturesFacts.
Local Open Scope string_scope.
Local Open Scope Z_scope.

Lemma minmax_normalize_range_witness :
  (0 <= (135 - 120) / (150 - 120) <= 1)%Q.
Proof.
  apply (minmax_normalize_range strike_rates).
  do 3 right. left. reflexivity.
Defined.

Lemma minmax_normalize_no_spread_witness :
  minmax_normalize flat_economy
  = map (fun _ => Some (if existsb notna flat_economy then 1 # 2 else 0)%Q)
      flat_economy.
Proof.
  apply minmax_normalize_no_spread.
  intros a b [Ha|[Ha|[Ha|[]]]] [Hb|[Hb|[Hb|[]]]];
    try discriminate Ha; try discriminate Hb;
    injection Ha as <-; injection Hb as <-; reflexivity.
Defined.


Lemma minmax_normalize_monotone_witness :
  ((135 - 120) / (150 - 120) <= (150 - 120) / (150 - 120))%Q.
Proof.
  apply (minmax_normalize_monotone strike_rates 3 2 135 150);
    try reflexivity.
  discriminate.
Defined.

Lemma classify_sold_iff_witness :
  Forall (fun x => snd x = "SOLD"
                   <-> exists e, efficiency_score (fst x) = Some e
                                 /\ (1 # 10 <= e)%Q)
    (classify (Some (Some (1 # 10)%Q)) stats_frame).
Proof. apply classify_sold_iff. reflexivity. Defined.

Lemma classify_unscored_sold_witness :
  Forall (fun x => efficiency_score (fst x) = NaN -> snd x = "SOLD")
    (classify None stats_frame).
Proof. apply classify_unscored_sold. intros t [=]. Defined.

Lemma _select_training_years_past_witness :
  (1 <= List.length train_years <= 2)%nat
  /\ StronglySorted Z.lt train_years
  /\ exists latest,
       In (Some latest) auction_years
       /\ (forall y, In (Some y) auction_years -> y <= latest)
       /\ (forall y, In y train_years ->
             In (Some y) auction_years /\ y < latest).
Proof. apply _select_training_years_past. reflexivity. Defined.

Lemma _select_training_years_recent_witness :
  (forall x, In (Some x) auction_years -> x <= 2021)
  \/ List.length train_years = 2%nat /\ forall x, In x train_years -> 2021 < x.
Proof.
  apply (_select_training_years_recent auction_years).
  - reflexivity.
  - left. reflexivity.
  - intros [H|[H|[]]]; discriminate H.
Defined.


End ImpactExamples.

(** * More about [select_starting_xi] *)

Module StartingXIProperties.
Import StartingXI ImpactRoles StartingXIFacts.
Local Open Scope string_scope.
Local Open Scope Z_scope.

Section Selection.

Context {sorter : SortValues}.
Variable max_overseas : Z.

Lemma key_leb_refl (asc : bool) (a : float) : key_leb asc a a = true.
Proof.
  destruct (key_leb asc a a) eqn:E; [reflexivity|].
  pose proof (key_leb_total asc a a E). congruence.
Qed.

(** The first row of a sorted frame stands before every row of it. *)
Lemma by_score_desc_first (l t : list PlayerRow) (p q : PlayerRow) :
  by_score_desc l = p :: t -> In q l -> key_ord final_score false p q.
Proof.
  intros E Hq. apply by_score_desc_In in Hq. rewrite E in Hq.
  pose proof (sort_values_sorted PlayerRow final_score false l) as Hs.
  fold (by_score_desc l) in Hs. rewrite E in Hs.
  inversion Hs as [|? ? _ Hall]; subst. rewrite Forall_forall in Hall.
  destruct Hq as [<-|Hq]; [apply key_leb_refl|now apply Hall].
Qed.

Lemma by_score_desc_nil (l : list PlayerRow) : by_score_desc l = [] -> l = [].
Proof.
  intros E. apply Permutation_nil.
  rewrite <- E. unfold by_score_desc. apply sort_values_perm.
Qed.

Lemma by_score_desc_empty : by_score_desc (@nil PlayerRow) = [].
Proof.
  apply Permutation_nil. symmetry. unfold by_score_desc. apply sort_values_perm.
Qed.

(** Lines 373-391, by cases. *)
Lemma impact_player_cases (pitch_type : string) (df_team xi_df : list PlayerRow) :
  match impact_player pitch_type df_team xi_df with
  | None => bench df_team xi_df = []
  | Some p =>
      In p (bench df_team xi_df)
      /\ forall q, In q (bench df_team xi_df) ->
           name_in (role q) (preferred_roles pitch_type) = true ->
           name_in (role p) (preferred_roles pitch_type) = true
           /\ key_ord final_score false p q
  end.
Proof.
  unfold impact_player. fold (bench df_team xi_df).
  destruct (bench df_team xi_df) as [|r rest] eqn:Eb; [reflexivity|].
  rewrite <- Eb. clear Eb r rest.
  change (if String.eqb pitch_type "bowling"
          then ["Bowling"; "All rounder"] else ["Batting"; "All rounder"])
    with (preferred_roles pitch_type).
  set (wanted := fun p : PlayerRow => name_in (role p) (preferred_roles pitch_type)).
  destruct (by_score_desc (filter wanted (bench df_team xi_df)))
    as [|p t] eqn:Ep.
  - apply by_score_desc_nil in Ep.
    destruct (by_score_desc (bench df_team xi_df)) as [|p t] eqn:Eall; simpl.
    + now apply by_score_desc_nil in Eall.
    + split.
      * apply by_score_desc_In. rewrite Eall. now left.
      * intros q Hq Hw. exfalso.
        assert (In q (filter wanted (bench df_team xi_df))) as Hin
          by (apply filter_In; auto).
        rewrite Ep in Hin. destruct Hin.
  - pose proof (best_In _ _ _ _ Ep) as [Hp Hw]. split; [exact Hp|].
    intros q Hq Hwq. split; [exact Hw|].
    apply (by_score_desc_first _ _ _ _ Ep). apply filter_In. auto.
Qed.

Lemma count_all (l : list PlayerRow) : count (fun _ => true) l = len l.
Proof. unfold count. now rewrite filter_all. Qed.

Lemma fill_by_score_rows (df rows : list PlayerRow) :
  NoDup (map Player df) -> (forall r, In r rows -> In r df) ->
  forall names oc,
    len (filter (fun p => name_in (Player p) names) df) = len names ->
    len names <= 11 ->
    let r := fill_by_score max_overseas rows names oc in
    len (filter (fun p => name_in (Player p) (fst r)) df) = len (fst r)
    /\ len (fst r) <= 11.
Proof.
  intros Hnd. induction rows as [|row rest IH]; intros Hsub names oc Hlen Hle;
    simpl; [auto|].
  assert (forall r, In r rest -> In r df) as Hrest
    by (intros; apply Hsub; now right).
  destruct (11 <=? len names) eqn:Efull; [simpl; auto|].
  destruct (name_in (Player row) names) eqn:Ename; [now apply IH|].
  destruct (is_overseas row && (max_overseas <=? oc)); [now apply IH|].
  apply Z.leb_gt in Efull.
  assert (len (names ++ [Player row])%list = len names + 1) as Hsnoc
    by (unfold len; rewrite length_app; cbn [List.length]; lia).
  apply IH; [exact Hrest| |lia].
  pose proof (count_add_name (fun _ => true) df names row Hnd
                (Hsub row (or_introl eq_refl)) Ename) as Hc.
  rewrite !count_all in Hc. rewrite Hc, Hlen, Hsnoc. reflexivity.
Qed.

Lemma seed_size (df_team : list PlayerRow) :
  NoDup (map Player df_team) ->
  len (fst (seed max_overseas df_team)) <= 11.
Proof.
  intros Hnd. unfold seed.
  assert (len (filter (fun p => name_in (Player p) (fst (lock_keeper df_team)))
                 df_team) = len (fst (lock_keeper df_team))
          /\ len (fst (lock_keeper df_team)) <= 11) as [Hlock Hle].
  { unfold lock_keeper.
    destruct (by_score_desc (filter is_keeper df_team)) as [|k t] eqn:Ek;
      cbn [fst].
    - pose proof (count_no_names (fun _ => true) df_team) as H.
      rewrite count_all in H. rewrite H. unfold len. simpl. lia.
    - apply best_In in Ek as [Hk _].
      pose proof (count_add_name (fun _ => true) df_team [] k Hnd Hk eq_refl)
        as H.
      change ([] ++ [Player k])%list with [Player k] in H.
      rewrite count_no_names, count_all in H.
      rewrite H. unfold len. simpl. lia. }
  destruct (lock_keeper df_team) as [names0 oc0]. simpl in *.
  pose proof (fill_by_score_rows df_team (by_score_desc df_team) Hnd
                (fun r => proj1 (by_score_desc_In df_team r)) names0 oc0
                Hlock Hle) as [Hc Hsize].
  destruct (fill_by_score _ _ _ _) as [selected_names oc]. simpl in *.
  unfold by_score_desc at 1. unfold len.
  rewrite (Permutation_length (sort_values_perm _ final_score false _)).
  fold (len (filter (fun p => name_in (Player p) selected_names) df_team)).
  lia.
Qed.

Lemma repair_size (df_team xi_df remaining : list PlayerRow) :
  NoDup (map Player df_team) ->
  split_team df_team xi_df remaining ->
  len (repair max_overseas df_team xi_df remaining) = len xi_df.
Proof.
  intros Hnd Hs.
  destruct (repair_keeps max_overseas df_team
              (fun xi rem => split_team df_team xi rem /\ len xi = len xi_df))
    with (xi_df := xi_df) (remaining := remaining)
    as (xi3 & rem3 & [_ H3] & ->).
  - tauto.
  - intros xi rem out_row in_row [Hsplit Hlen] Hout Hin _ _. split.
    + now apply swap_split_team.
    + pose proof (swap_xi_count df_team Hnd (fun _ => true) xi rem out_row
                    in_row Hsplit Hout) as Hc.
      rewrite !count_all in Hc. simpl in Hc. lia.
  - now split.
  - rewrite <- H3. unfold by_score_desc, len.
    now rewrite (Permutation_length (sort_values_perm _ final_score false xi3)).
Qed.

Lemma xi_size (df_team : list PlayerRow) (pitch_type : string) :
  NoDup (map Player df_team) ->
  len (fst (select_starting_xi df_team pitch_type max_overseas))
  = len (fst (seed max_overseas df_team))
  /\ len (fst (select_starting_xi df_team pitch_type max_overseas)) <= 11.
Proof.
  intros Hnd. pose proof (seed_size df_team Hnd) as Hsize.
  pose proof (seed_split max_overseas df_team) as Hs.
  unfold select_starting_xi.
  destruct df_team as [|p df] eqn:Edf.
  { split; [|unfold len; simpl; lia].
    unfold seed, lock_keeper. cbn [filter]. rewrite by_score_desc_empty.
    cbn. rewrite ?by_score_desc_empty. reflexivity. }
  rewrite <- Edf in *.
  destruct (seed max_overseas df_team) as [xi_df remaining]. simpl in *.
  destruct xi_df as [|q xi] eqn:Exi; [simpl; split; [reflexivity|exact Hsize]|].
  rewrite <- Exi in *. simpl.
  rewrite (repair_size df_team xi_df remaining Hnd Hs). auto.
Qed.

Lemma xi_from_team (df_team : list PlayerRow) (pitch_type : string) :
  NoDup (map Player df_team) ->
  let xi := fst (select_starting_xi df_team pitch_type max_overseas) in
  let impact_row := snd (select_starting_xi df_team pitch_type max_overseas) in
  (forall p, In p xi -> In p df_team)
  /\ (forall p, impact_row = Some p ->
        In p df_team /\ ~ In (Player p) (map Player xi))
  /\ (impact_row = None ->
        xi = [] \/ forall p, In p df_team -> In (Player p) (map Player xi)).
Proof.
  intros Hnd. pose proof (seed_split max_overseas df_team) as Hs.
  unfold select_starting_xi.
  destruct df_team as [|p0 df] eqn:Edf.
  { simpl. split; [tauto|]. split; [discriminate|]. now left. }
  rewrite <- Edf in *.
  destruct (seed max_overseas df_team) as [xi_df remaining]. simpl in Hs.
  destruct xi_df as [|q0 xi0] eqn:Exi.
  { simpl. split; [tauto|]. split; [discriminate|]. now left. }
  rewrite <- Exi in *. cbn [fst snd].
  set (xi := repair max_overseas df_team xi_df remaining).
  split; [|split].
  - intros p Hp.
    destruct (repair_split max_overseas df_team Hnd xi_df remaining Hs)
      as (xi3 & rem3 & H3 & E).
    fold xi in E. rewrite E in Hp.
    apply (proj1 (by_score_desc_In _ _)) in Hp.
    apply (Permutation_in _ H3). apply in_or_app. now left.
  - intros p Hp. pose proof (impact_player_cases pitch_type df_team xi) as H.
    rewrite Hp in H. destruct H as [Hin _].
    apply filter_In in Hin as [Hin Hout]. split; [exact Hin|].
    intros Hname. apply name_in_In in Hname. now rewrite Hname in Hout.
  - intros Hnone. right. intros p Hp.
    pose proof (impact_player_cases pitch_type df_team xi) as H.
    rewrite Hnone in H.
    destruct (name_in (Player p) (map Player xi)) eqn:E;
      [now apply name_in_In|].
    assert (In p (bench df_team xi)) as Hb
      by (apply filter_In; split; [exact Hp|now rewrite E]).
    rewrite H in Hb. destruct Hb.
Qed.





End Selection.

End StartingXIProperties.

Module StartingXIMoreExamples.
Import StartingXI ImpactRoles StartingXISamples StartingXIExamples
  StartingXIProperties.
Local Open Scope string_scope.
Local Open Scope Z_scope.





End StartingXIMoreExamples.

(** * Player scores *)

Module ScoringFacts.
Import Scoring.
Local Open Scope string_scope.
Local Open Scope Z_scope.

Lemma _safe_numeric_nonneg (x : float) :
  not_negative x -> (0 <= _safe_numeric x)%Q.
Proof. destruct x as [q|]; simpl; [auto|intros _; apply Qle_refl]. Qed.

Lemma per_innings_nonneg (total inns : Q) :
  (0 <= total)%Q ->
  (0 <= (if positive inns then total / inns else 0))%Q.
Proof.
  intros Ht. unfold positive.
  destruct (Qle_bool inns 0) eqn:E; simpl; [apply Qle_refl|].
  assert (0 < inns)%Q as Hpos.
  { destruct (Qlt_le_dec 0 inns) as [H|H]; [exact H|].
    apply Qle_bool_iff in H. congruence. }
  apply Qle_shift_div_l; [exact Hpos|]. lra.
Qed.

Lemma batting_score_raw_nonneg (row : StatsRow) :
  not_negative (Avg row) -> not_negative (SR row) -> not_negative (Runs row) ->
  (0 <= batting_score_raw row)%Q.
Proof.
  intros Ha Hs Hr. unfold batting_score_raw.
  apply _safe_numeric_nonneg in Ha, Hs, Hr.
  pose proof (per_innings_nonneg _ (_safe_numeric (Inns row)) Hr) as Hp.
  cbv zeta. lra.
Qed.

Lemma bowling_score_raw_nonneg (row : StatsRow) :
  not_negative (B_Wkts row) -> (0 <= bowling_score_raw row)%Q.
Proof.
  intros Hw. unfold bowling_score_raw. apply _safe_numeric_nonneg in Hw.
  pose proof (per_innings_nonneg _ (_safe_numeric (B_Inns row)) Hw) as Hp.
  pose proof (Q.le_max_l 0 (8 - fillna 999 (B_Econ row))) as Hm.
  cbv zeta. lra.
Qed.

Lemma role_weighted_nonneg (row : StatsRow) :
  not_negative (Avg row) -> not_negative (SR row) -> not_negative (Runs row) ->
  not_negative (B_Wkts row) ->
  (0 <= role_weighted row)%Q.
Proof.
  intros Ha Hs Hr Hw. unfold role_weighted.
  pose proof (batting_score_raw_nonneg row Ha Hs Hr).
  pose proof (bowling_score_raw_nonneg row Hw).
  destruct (String.eqb _ "Batting"); [lra|].
  destruct (String.eqb _ "Bowling"); lra.
Qed.

Lemma pitch_factor_pos (role pitch_type : string) :
  (0 < pitch_factor role pitch_type)%Q.
Proof.
  unfold pitch_factor.
  repeat match goal with |- context [if ?b then _ else _] => destruct b end;
    reflexivity.
Qed.

Lemma toss_factor_pos (role toss_decision : string) :
  (0 < toss_factor role toss_decision)%Q.
Proof.
  unfold toss_factor.
  repeat match goal with |- context [if ?b then _ else _] => destruct b end;
    reflexivity.
Qed.

(** The score is the role-weighted raw score times a positive factor that
    the pitch enters through [pitch_factor] alone. *)
Lemma compute_player_score_factors (row : StatsRow)
    (pitch_type toss_decision : string) :
  exists rest,
    (0 < rest)%Q
    /\ forall pitch,
         (compute_player_score row pitch toss_decision
          == role_weighted row
             * pitch_factor (StartingXI.strip (Paying_Role row)) pitch
             * rest)%Q.
Proof.
  unfold compute_player_score.
  pose proof (toss_factor_pos (StartingXI.strip (Paying_Role row))
                toss_decision) as Ht.
  set (toss := toss_factor _ _) in *.
  destruct (positive (_safe_numeric (CAPTAINCY_EXP row)));
    destruct (StartingXI.name_in (Player row) WICKET_KEEPERS).
  - exists (toss * (51 # 50) * (103 # 100))%Q. split; [lra|]. intros; ring.
  - exists (toss * (51 # 50))%Q. split; [lra|]. intros; ring.
  - exists (toss * (103 # 100))%Q. split; [lra|]. intros; ring.
  - exists toss. split; [lra|]. intros; ring.
Qed.

(** X25: with batting average, strike rate, runs and wickets that are not
    negative where present, the rule-based score is not negative, whatever
    the other columns, the pitch and the toss. *)
Theorem compute_player_score_nonneg (row : StatsRow)
    (pitch_type toss_decision : string) :
  not_negative (Avg row) -> not_negative (SR row) -> not_negative (Runs row) ->
  not_negative (B_Wkts row) ->
  (0 <= compute_player_score row pitch_type toss_decision)%Q.
Proof.
  intros Ha Hs Hr Hw.
  destruct (compute_player_score_factors row pitch_type toss_decision)
    as (rest & Hrest & ->).
  pose proof (role_weighted_nonneg row Ha Hs Hr Hw) as H0.
  pose proof (pitch_factor_pos (StartingXI.strip (Paying_Role row)) pitch_type).
  apply Qmult_le_0_compat; [apply Qmult_le_0_compat|]; lra.
Qed.

Lemma score_by_factor (row : StatsRow) (toss_decision p1 p2 : string) :
  (0 <= role_weighted row)%Q ->
  (pitch_factor (StartingXI.strip (Paying_Role row)) p1
   <= pitch_factor (StartingXI.strip (Paying_Role row)) p2)%Q ->
  (compute_player_score row p1 toss_decision
   <= compute_player_score row p2 toss_decision)%Q.
Proof.
  intros H0 Hle.
  destruct (compute_player_score_factors row p1 toss_decision)
    as (rest & Hrest & E).
  rewrite (E p1), (E p2).
  apply Qmult_le_compat_r; [|lra].
  rewrite !(Qmult_comm (role_weighted row)).
  apply Qmult_le_compat_r; assumption.
Qed.


Lemma detect_cases (cands cols : list string) :
  detect cands cols = None \/ exists c, detect cands cols = Some c.
Proof. destruct (detect cands cols) as [c|]; eauto. Qed.

Lemma _apply_squad_filter_rows (squad_csv : option SquadCsv)
    (df_team : list StatsRow) (team_code : string) :
  exists keep,
    _apply_squad_filter squad_csv df_team team_code = filter keep df_team.
Proof.
  unfold _apply_squad_filter.
  assert (exists keep : StatsRow -> bool, df_team = filter keep df_team) as Hsame
    by (exists (fun _ => true); symmetry; now apply filter_all).
  destruct squad_csv as [squad_df|]; [|exact Hsame].
  destruct (detect _ _); [|exact Hsame].
  destruct (detect _ _); [|exact Hsame].
  destruct (filter _ (rows squad_df)); [exact Hsame|].
  cbv zeta. cbn [map].
  destruct (filter _ df_team) eqn:E; [exact Hsame|].
  rewrite <- E. eauto.
Qed.

(** X27: the squad filter returns rows of the team frame, in their order;
    it never turns a team frame that has rows into an empty one; and
    unless all it returns are players of the squad file it returns the
    team frame unchanged. *)
Theorem _apply_squad_filter_fallback (squad_csv : option SquadCsv)
    (df_team : list StatsRow) (team_code : string) :
  let out := _apply_squad_filter squad_csv df_team team_code in
  (exists keep, out = filter keep df_team)
  /\ (out = [] -> df_team = [])
  /\ (out = df_team
      \/ exists squad_df team_col name_col,
           squad_csv = Some squad_df
           /\ forall p, In p out ->
                exists r, In r (rows squad_df)
                          /\ upper (r team_col) = upper team_code
                          /\ StartingXI.strip (r name_col) = Player p).
Proof.
  unfold _apply_squad_filter.
  assert (exists keep : StatsRow -> bool, df_team = filter keep df_team) as Hsame
    by (exists (fun _ => true); symmetry; now apply filter_all).
  destruct squad_csv as [squad_df|]; [|cbv zeta; auto].
  destruct (detect ["TEAM"; "Team"; "team"] (columns squad_df)) as [team_col|];
    [|cbv zeta; auto].
  destruct (detect _ (columns squad_df)) as [name_col|]; [|cbv zeta; auto].
  set (squad_team := filter _ (rows squad_df)).
  assert (forall r, In r squad_team ->
            In r (rows squad_df) /\ upper (r team_col) = upper team_code)
    as Hteam.
  { intros r Hr. apply filter_In in Hr as [Hr E].
    apply String.eqb_eq in E. auto. }
  destruct squad_team as [|r0 rest] eqn:Esq; [cbv zeta; auto|].
  rewrite <- Esq in *. clear Esq r0 rest.
  set (squad_names := map (fun r => StartingXI.strip (r name_col)) squad_team).
  destruct squad_names as [|n0 ns] eqn:En; [cbv zeta; auto|].
  rewrite <- En. clear En n0 ns.
  destruct (filter (fun p => StartingXI.name_in (Player p) squad_names) df_team)
    as [|p0 ps] eqn:Ef; [cbv zeta; auto|].
  rewrite <- Ef. cbv zeta. split; [eauto|]. split.
  - rewrite Ef. discriminate.
  - right. exists squad_df, team_col, name_col. split; [reflexivity|].
    intros p Hp. apply filter_In in Hp as [_ Hname].
    apply StartingXIFacts.name_in_In in Hname.
    apply in_map_iff in Hname as (r & Er & Hr).
    exists r. destruct (Hteam r Hr). auto.
Qed.

End ScoringFacts.

(** * The endpoints of the auction backend *)

Module ApiFacts.
Import Auction AuctionFacts SquadProperties Api.
Local Open Scope string_scope.
Local Open Scope Z_scope.

Section Endpoints.

Context {sorter : SortValues}.

Lemma candidates_of_no_year (df : list Row) (yr : Z) :
  (forall r, In r df -> year r <> yr) -> candidates_of df yr = [].
Proof.
  intros Hnone. destruct (candidates_of df yr) as [|r l] eqn:E; [reflexivity|].
  assert (In r (candidates_of df yr)) as Hin by (rewrite E; now left).
  apply candidates_of_In in Hin as [Hin He]. unfold eligible in He.
  apply andb_prop in He as [He _]. apply andb_prop in He as [He _].
  apply Z.eqb_eq in He. now apply Hnone in Hin.
Qed.


(** X29: when the models are on disk and the predictions frame has no row
    of the prediction year, [/players/2025] answers 404, but
    [/players/2025/table] and [/squad/2025] answer 500: the table's own
    404 is caught by its [except Exception], and the squad selection
    raises [KeyError]. *)
Theorem no_rows_of_prediction_year (preds_df : list PredRow)
    (name_query : string) (total_purse : float) (size max_ov min_ov : Z) :
  (forall r, In r preds_df -> year (row r) <> PREDICTION_YEAR) ->
  get_player_2025 true (Some preds_df) name_query
  = Raises (HTTPException 404)
  /\ get_players_2025_table true (Some preds_df) = Raises (HTTPException 500)
  /\ get_squad_2025 true (Some preds_df) total_purse size max_ov min_ov
     = Raises (HTTPException 500).
Proof.
  intros Hnone.
  assert (year_rows preds_df = []) as Hyear.
  { unfold year_rows. destruct (filter _ preds_df) as [|r l] eqn:E;
      [reflexivity|].
    assert (In r (filter (fun r => year (row r) =? PREDICTION_YEAR) preds_df))
      as Hin by (rewrite E; now left).
    apply filter_In in Hin as [Hin Hy]. apply Z.eqb_eq in Hy.
    now apply Hnone in Hin. }
  unfold get_player_2025, get_players_2025_table, get_squad_2025.
  rewrite Hyear. simpl. split; [reflexivity|]. split; [reflexivity|].
  unfold select_squad. rewrite candidates_of_no_year.
  - now rewrite run_phases_nil.
  - intros r Hr. apply in_map_iff in Hr as (p & <- & Hp). now apply Hnone.
Qed.

End Endpoints.

End ApiFacts.

(** * From the stats frame to the XI *)

Module PipelineFacts.
Import Scoring ScoringFacts.
Local Open Scope string_scope.
Local Open Scope Z_scope.

Section Pipeline.

Context {sorter : SortValues}.
Variable squad_csv : option SquadCsv.
Variable model_predict : option (StatsRow -> Q).
Variable get_pitch_info_smart : string -> option (string * string).

Lemma names_distinct_filter (keep : StatsRow -> bool) (df : list StatsRow) :
  NoDup (map Player df) -> NoDup (map Player (filter keep df)).
Proof.
  induction df as [|r df IH]; simpl; intros H; [constructor|].
  inversion H as [|? ? Hr Hdf]; subst.
  destruct (keep r); simpl; [|now apply IH].
  constructor; [|now apply IH].
  intros Hin. apply Hr. apply in_map_iff in Hin as (x & E & Hx).
  apply filter_In in Hx as [Hx _]. rewrite <- E. now apply in_map.
Qed.

(** The scored team frame: its rows are the scored rows of the team, and
    its names are those of the team's rows that were kept. *)
Lemma compute_scores_for_team_rows (players_df : list StatsRow)
    (team_code pitch_type toss_decision : string) :
  let final_score r :=
    match model_predict with
    | Some predict => predict r
    | None => compute_player_score r pitch_type toss_decision
    end in
  (forall p,
     In p (compute_scores_for_team squad_csv model_predict players_df
             team_code pitch_type toss_decision) ->
     exists r, In r players_df /\ TEAM r = team_code
               /\ p = scored_row (final_score r) r)
  /\ (NoDup (map Player
               (filter (fun r => String.eqb (TEAM r) team_code) players_df)) ->
      NoDup (map StartingXI.Player
               (compute_scores_for_team squad_csv model_predict players_df
                  team_code pitch_type toss_decision))).
Proof.
  intros final_score. unfold compute_scores_for_team.
  set (team := filter (fun r => String.eqb (TEAM r) team_code) players_df).
  destruct (_apply_squad_filter_rows squad_csv team team_code) as [keep ->].
  destruct (filter keep team) as [|r0 kept] eqn:Ekept;
    [split; [intros p []|constructor]|].
  rewrite <- Ekept. clear Ekept r0 kept. cbv zeta.
  replace (match model_predict with
           | Some predict => predict
           | None => fun r => compute_player_score r pitch_type toss_decision
           end) with final_score by (unfold final_score; now destruct model_predict).
  split.
  - intros p Hp.
    apply (Permutation_in _ (sort_values_perm _ _ _ _)) in Hp.
    apply in_map_iff in Hp as (r & <- & Hr).
    apply filter_In in Hr as [Hr _]. apply filter_In in Hr as [Hr Ht].
    apply String.eqb_eq in Ht. now exists r.
  - intros Hnd.
    apply (Permutation_NoDup
             (Permutation_map StartingXI.Player
                (Permutation_sym (sort_values_perm _ _ _ _)))).
    rewrite map_map. simpl. now apply names_distinct_filter.
Qed.


End Pipeline.

End PipelineFacts.

Module ScoringExamples.
Import Scoring ScoringSamples ScoringFacts PipelineFacts.
Local Open Scope string_scope.
Local Open Scope Z_scope.

Lemma compute_player_score_nonneg_witness :
  (0 <= compute_player_score pathirana "batting" "bowl")%Q.
Proof. apply compute_player_score_nonneg; discriminate. Defined.



End ScoringExamples.

Module ApiExamples.
Import Auction AuctionSamples Api ApiSamples ApiFacts.
Local Open Scope string_scope.
Local Open Scope Z_scope.


Lemma no_rows_of_prediction_year_witness :
  get_player_2025 true (Some preds_2024) "ms dhoni"
  = Raises (HTTPException 404)
  /\ get_players_2025_table true (Some preds_2024)
     = Raises (HTTPException 500)
  /\ get_squad_2025 true (Some preds_2024) (Some 100%Q) 9 3 1
     = Raises (HTTPException 500).
Proof.
  apply no_rows_of_prediction_year.
  intros r [<-|[]]. discriminate.
Defined.

End ApiExamples.
